(** * ScatterGraph: dataset registry and axis windowing

    A shallow embedding of
    [modules/dreamview/frontend/src/components/PNCMonitor/ScatterGraph.js].

    Modelling conventions.
    - A JavaScript number that takes part in arithmetic is an exact rational
      ([Qc], canonical fractions, so that equality is Leibniz equality); the
      non-finite numbers and the absent values [null] / [undefined] are kept
      as separate constructors of [coord], because [isValidValue] tells them
      apart.  Rounding of IEEE doubles is not modelled.
    - A JavaScript object used as a property bag is a [gmap string value];
      an object that is iterated with [for ... in] is an association list in
      iteration order.
    - The chart's mutable state ([chart.data.datasets], [name2idx]) and the
      caller's property objects that [updateCar] writes to are threaded
      explicitly. *)

From Stdlib Require Import QArith Qcanon Qround Lqa.
From stdpp Require Import gmap strings list fin_maps.

(** ** Numbers *)

(** A coordinate as it may arrive in a data point. *)
Inductive coord :=
| CUndefined
| CNull
| CNaN
| CInfinity (negative : bool)
| CNum (q : Qc).

Record Point := mkPoint { pt_x : coord; pt_y : coord; pt_heading : coord }.

(** [a < b] on numbers, as a boolean. *)
Definition Qcltb (a b : Qc) : bool :=
  match (a ?= b)%Qc with Lt => true | _ => false end.

Definition Math_max (a b : Qc) : Qc := if Qcltb a b then b else a.

Definition Math_floor (q : Qc) : Qc := Q2Qc (inject_Z (Qfloor q)).

(** ** Axis Window Controller *)

Module Axis.
Local Open Scope Qc_scope.

(** The part of a Chart.js scale that the callbacks read and write. *)
Record Scale := mkScale {
  scale_id : string;
  isHorizontal : bool;
  scale_max : Qc;
  scale_min : Qc
}.

(** [updateTickWindow(scale, windowSize, midValue)].  [midValue] is [None]
    when the axis setting has no [midValue]; [midValue || e] falls through to
    [e] for every falsy value, which for a number is zero. *)
Definition truthy (midValue : option Qc) : bool :=
  match midValue with
  | Some v => negb (bool_decide (v = 0))
  | None => false
  end.

Definition updateTickWindow (scale : Scale) (windowSize : Qc)
    (midValue : option Qc) : Scale :=
  let mid :=
    if truthy midValue then default 0 midValue
    else Math_floor ((scale_max scale + scale_min scale) / 2) in
  {| scale_id := scale_id scale;
     isHorizontal := isHorizontal scale;
     scale_max := mid + windowSize / 2;
     scale_min := mid - windowSize / 2 |}.

(** What [syncXYWindowSize] sees of one dataset: the visibility flag of
    [chart.isDatasetVisible], the axis ids of its meta, and its raw points,
    each paired with the [hidden] flag of the meta element of the same
    index (Chart.js keeps one meta element per data point). *)
Record Plotted := mkPlotted {
  visible : bool;
  xAxisID : string;
  yAxisID : string;
  points : list (Point * bool)
}.

Definition isValidValue (value : coord) : bool :=
  match value with
  | CNum _ => true
  | _ => false
  end.

Definition IDMatches (scale : Scale) (meta : Plotted) : bool :=
  if isHorizontal scale then bool_decide (xAxisID meta = scale_id scale)
  else bool_decide (yAxisID meta = scale_id scale).

(** The four running bounds [min.x], [max.x], [min.y], [max.y]; [None] is
    the initial [null]. *)
Record Extent := mkExtent {
  min_x : option Qc;
  max_x : option Qc;
  min_y : option Qc;
  max_y : option Qc
}.

Definition noExtent : Extent := mkExtent None None None None.

Definition lower (cur : option Qc) (v : Qc) : option Qc :=
  match cur with
  | None => Some v
  | Some m => if Qcltb v m then Some v else Some m
  end.

Definition raise (cur : option Qc) (v : Qc) : option Qc :=
  match cur with
  | None => Some v
  | Some m => if Qcltb m v then Some v else Some m
  end.

(** Body of the inner [Chart.helpers.each(dataset.data, ...)]. *)
Definition visitPoint (e : Extent) (p : Point * bool) : Extent :=
  let (rawValue, hidden) := p in
  if negb (isValidValue (pt_x rawValue)) || negb (isValidValue (pt_y rawValue))
     || hidden
  then e
  else
    match pt_x rawValue, pt_y rawValue with
    | CNum vx, CNum vy =>
        {| min_x := lower (min_x e) vx;
           max_x := raise (max_x e) vx;
           min_y := lower (min_y e) vy;
           max_y := raise (max_y e) vy |}
    | _, _ => e
    end.

(** Body of the outer [Chart.helpers.each(datasets, ...)]. *)
Definition visitDataset (scale : Scale) (e : Extent) (dataset : Plotted) : Extent :=
  if visible dataset && IDMatches scale dataset
  then fold_left visitPoint (points dataset) e
  else e.

Definition dataExtent (scale : Scale) (datasets : list Plotted) : Extent :=
  fold_left (visitDataset scale) datasets noExtent.

(** [syncXYWindowSize(scale)], with [scale.chart.data.datasets] and their
    metas passed as [datasets]. *)
Definition syncXYWindowSize (datasets : list Plotted) (scale : Scale) : Scale :=
  let e := dataExtent scale datasets in
  match min_x e, min_y e, max_x e, max_y e with
  | Some minx, Some miny, Some maxx, Some maxy =>
      let max_diff := Math_max (maxx - minx) (maxy - miny) in
      let mid :=
        if isHorizontal scale then Math_floor ((maxx + minx) / 2)
        else Math_floor ((maxy + miny) / 2) in
      {| scale_id := scale_id scale;
         isHorizontal := isHorizontal scale;
         scale_max := mid + max_diff / 2;
         scale_min := mid - max_diff / 2 |}
  | _, _, _, _ => scale
  end.

(** The points that take part in the extent of [scale]: those of visible
    datasets bound to the scale, not hidden, with both coordinates finite
    numbers. *)
Definition finitePoint (p : Point * bool) : option (Qc * Qc) :=
  match pt_x (fst p), pt_y (fst p), snd p with
  | CNum vx, CNum vy, false => Some (vx, vy)
  | _, _, _ => None
  end.

Definition finitePoints (scale : Scale) (datasets : list Plotted) : list (Qc * Qc) :=
  flat_map (fun d =>
    if visible d && IDMatches scale d then omap finitePoint (points d) else [])
    datasets.

(** [m] is the least (resp. greatest) element of [l]. *)
Definition least (l : list Qc) (m : Qc) : Prop := m ∈ l ∧ ∀ v, v ∈ l → m <= v.
Definition greatest (l : list Qc) (m : Qc) : Prop := m ∈ l ∧ ∀ v, v ∈ l → v <= m.

Definition width (scale : Scale) : Qc := scale_max scale - scale_min scale.


(** Concrete inputs used below. *)
Definition num (z : Z) : Qc := Q2Qc (inject_Z z).
Definition half : Qc := Q2Qc (1 # 2).
Definition xy (a b : Z) : Point * bool :=
  (mkPoint (CNum (num a)) (CNum (num b)) CUndefined, false).
Definition onBoth (ps : list (Point * bool)) : Plotted :=
  mkPlotted true "x-axis-0" "y-axis-0" ps.
Definition xAxis (lo hi : Qc) : Scale := mkScale "x-axis-0" true hi lo.
Definition yAxis (lo hi : Qc) : Scale := mkScale "y-axis-0" false hi lo.

End Axis.

(** ** Dataset Registry and Frame Update Pipeline *)

Module Registry.

(** Values stored under the keys of a style or dataset object. *)
Inductive value :=
| VUndefined
| VBool (b : bool)
| VNum (q : Qc)
| VStr (s : string)
| VPoints (ps : list Point).

Abbreviation obj := (gmap string value).

(** [o.key], which is [undefined] for a missing key. *)
Definition get (o : obj) (key : string) : value := default VUndefined (o !! key).

(** An object iterated with [for ... in]: keys in iteration order; a
    property access finds the first entry of the key. *)
Abbreviation jsobject A := (list (string * A)).

Definition keys {A} (o : jsobject A) : list string := o.*1.

Fixpoint prop {A} (o : jsobject A) (key : string) : option A :=
  match o with
  | [] => None
  | (k, v) :: o' => if bool_decide (k = key) then Some v else prop o' key
  end.

Definition defaultPolygonProperties : obj :=
  list_to_map
    [("color", VStr "rgba(255, 0, 0, 0.8)");
     ("borderWidth", VNum (Axis.num 2));
     ("pointRadius", VNum (Axis.num 0));
     ("fill", VBool false);
     ("showLine", VBool true);
     ("showText", VBool true);
     ("cubicInterpolationMode", VStr "monotone");
     ("lineTension", VNum (Axis.num 0))].

(** The per-car style objects of the inbound properties bundle are written
    to by [updateCar]; they live in a store and the bundle refers to them by
    address, so that the caller's view after an update is the store's. *)
Abbreviation loc := positive.

Record DataBundle := mkData {
  data_cars : jsobject Point;
  data_lines : jsobject (list Point);
  (* a polygon whose point list is falsy is [None] *)
  data_polygons : jsobject (option (list Point))
}.

Record PropBundle := mkProperties {
  prop_cars : jsobject loc;
  prop_lines : jsobject obj;
  prop_polygons : jsobject obj
}.

Record Props := mkProps {
  data : option DataBundle;
  properties : option PropBundle
}.

(** [this.chart.data.datasets], [this.name2idx], and the store of style
    objects. *)
Record World := mkWorld {
  datasets : list obj;
  name2idx : gmap string nat;
  heap : gmap loc obj
}.

(** The state right after [initializeCanvas]. *)
Definition initial (h : gmap loc obj) : World := mkWorld [] ∅ h.

(** The config object built in the first branch of [updateData]: the basic
    properties, overwritten by every key of [properties]. *)
Definition newConfig (name : string) (properties : obj) (data : list Point) : obj :=
  properties ∪
  (<["data" := VPoints data]>
   (<["borderColor" := get properties "color"]>
   (<["backgroundColor" := get properties "color"]>
   (<["text" := VStr name]>
   (<["showText" := get properties "showLabel"]>
   (<["label" := VStr name]> ∅)))))).

(** The second branch of [updateData]: the two assignments to the dataset
    that is already there. *)
Definition setSeries (name : string) (data : list Point) (d : obj) : obj :=
  <["data" := VPoints data]> (<["text" := VStr name]> d).

Definition updateData (idx : nat) (name : string) (properties : obj)
    (data : list Point) (datasets : list obj) : list obj :=
  match datasets !! idx with
  | None => datasets ++ [newConfig name properties data]
  | Some d => <[idx := setSeries name data d]> datasets
  end.

(** [if (this.name2idx[name] === undefined) this.name2idx[name] =
    this.chart.data.datasets.length; idx = this.name2idx[name]], which the
    source repeats for the arrow, the bounding box and every line. *)
Definition resolveIdx (name : string) (datasets : list obj)
    (name2idx : gmap string nat) : nat * gmap string nat :=
  match name2idx !! name with
  | Some idx => (idx, name2idx)
  | None => (length datasets, <[name := length datasets]> name2idx)
  end.

Definition arrowNameOf (name : string) : string := name +:+ "_arrow".
Definition polygonNameOf (name : string) : string :=
  "skip_legend_" +:+ name +:+ "_car_bounding_box".

(** The three assignments to [arrowProperties], which is [properties]. *)
Definition markCar (properties : obj) : obj :=
  <["pointRadius" := VNum (Axis.num 0)]>
  (<["borderWidth" := VNum (Axis.num 0)]>
  (<["specialMarker" := VStr "car"]> properties)).

Definition emptyPoint : Point := mkPoint CUndefined CUndefined CUndefined.

(** The literal [polygonProperties] of [updateCar], with
    [color: properties.color]. *)
Definition boxProperties (color : value) : obj :=
  <["lineTension" := VNum (Axis.num 0)]>
  (<["fill" := VBool false]>
  (<["showLine" := VBool true]>
  (<["color" := color]>
  (<["pointRadius" := VNum (Axis.num 0)]>
  (<["borderWidth" := VNum (Axis.num 1)]> ∅))))).

(** The legend filter of [initializeCanvas]. *)
Definition legendFilter (text : string) : bool := negb (String.prefix "skip_" text).

Section Pipeline.

(** [STORE.hmi.calculateCarPolygonPoints], an external collaborator. *)
Variable calculateCarPolygonPoints : coord → coord → coord → list Point.

(** [updateCar(name, point, properties)].  [properties] is the address of
    the style object, or [None] when [_.get] fell back to a fresh [{}]. *)
Definition updateCar (name : string) (point : Point) (properties : option loc)
    (w : World) : World :=
  let arrowName := arrowNameOf name in
  let '(idx, name2idx1) := resolveIdx arrowName (datasets w) (name2idx w) in
  let arrowProperties := markCar (default ∅ (properties ≫= (heap w !!.))) in
  let heap1 :=
    match properties with
    | Some l => alter markCar l (heap w)
    | None => heap w
    end in
  let datasets1 := updateData idx arrowName arrowProperties [point] (datasets w) in
  let polygonName := polygonNameOf name in
  let '(idx2, name2idx2) := resolveIdx polygonName datasets1 name2idx1 in
  let polygon :=
    calculateCarPolygonPoints (pt_x point) (pt_y point) (pt_heading point) in
  let polygonProperties := boxProperties (get arrowProperties "color") in
  mkWorld (updateData idx2 polygonName polygonProperties polygon datasets1)
          name2idx2 heap1.

(** One round of the [// Draw lines] loop. *)
Definition updateLine (datasets : DataBundle) (properties : PropBundle)
    (w : World) (name : string) : World :=
  let '(idx, name2idx1) := resolveIdx name (Registry.datasets w) (name2idx w) in
  let lineProperties := default ∅ (prop (prop_lines properties) name) in
  let points := default [] (prop (data_lines datasets) name) in
  mkWorld (updateData idx name lineProperties points (Registry.datasets w))
          name2idx1 (heap w).

(** One round of the [// Draw polygons] loop, on [idx] and the dataset
    array. *)
Definition updatePolygon (datasets : DataBundle) (properties : PropBundle)
    (s : nat * list obj) (name : string) : nat * list obj :=
  match prop (data_polygons datasets) name with
  | Some (Some points) =>
      let polygonProperties :=
        default defaultPolygonProperties (prop (prop_polygons properties) name) in
      (S (fst s), updateData (fst s) name polygonProperties points (snd s))
  | _ => s
  end.

(** [updateChart(props)].  The final [chart.update(0)] redraws and leaves
    this state as it is. *)
Definition updateChart (props : Props) (w : World) : World :=
  match data props, properties props with
  | Some datasets, Some properties =>
      let w1 :=
        fold_left
          (fun w name =>
             updateCar name
               (default emptyPoint (prop (data_cars datasets) name))
               (prop (prop_cars properties) name) w)
          (keys (prop_cars properties)) w in
      let w2 :=
        fold_left (updateLine datasets properties) (keys (prop_lines properties)) w1 in
      let '(idx, datasets3) :=
        fold_left (updatePolygon datasets properties)
          (keys (data_polygons datasets))
          (size (name2idx w2), Registry.datasets w2) in
      mkWorld (take idx datasets3) (name2idx w2) (heap w2)
  | _, _ => w
  end.

(** A sequence of updates from the state after [initializeCanvas]. *)
Definition run (frames : list Props) (h : gmap loc obj) : World :=
  fold_left (fun w props => updateChart props w) frames (initial h).

(** *** The pipeline as a list of drawing operations

    What one frame asks the registry to draw: a series name, the style
    object handed to [updateData], and the points. *)
Record Op := mkOp { op_name : string; op_style : obj; op_points : list Point }.

Definition carOpsOf (h : gmap loc obj) (d : DataBundle) (p : PropBundle)
    (name : string) : list Op :=
  let point := default emptyPoint (prop (data_cars d) name) in
  let o := markCar (default ∅ (prop (prop_cars p) name ≫= (h !!.))) in
  [mkOp (arrowNameOf name) o [point];
   mkOp (polygonNameOf name) (boxProperties (get o "color"))
        (calculateCarPolygonPoints (pt_x point) (pt_y point) (pt_heading point))].

Definition carOps (h : gmap loc obj) (d : DataBundle) (p : PropBundle) : list Op :=
  flat_map (carOpsOf h d p) (keys (prop_cars p)).

Definition lineOpOf (d : DataBundle) (p : PropBundle) (name : string) : Op :=
  mkOp name (default ∅ (prop (prop_lines p) name))
       (default [] (prop (data_lines d) name)).

Definition lineOps (d : DataBundle) (p : PropBundle) : list Op :=
  lineOpOf d p <$> keys (prop_lines p).

Definition polygonOpOf (d : DataBundle) (p : PropBundle) (name : string) : option Op :=
  match prop (data_polygons d) name with
  | Some (Some points) =>
      Some (mkOp name
              (default defaultPolygonProperties (prop (prop_polygons p) name))
              points)
  | _ => None
  end.

Definition polygonOps (d : DataBundle) (p : PropBundle) : list Op :=
  omap (polygonOpOf d p) (keys (data_polygons d)).

(** Resolve the name, then [updateData]. *)
Definition drawNamed (s : list obj * gmap string nat) (op : Op)
    : list obj * gmap string nat :=
  let '(idx, m) := resolveIdx (op_name op) s.1 s.2 in
  (updateData idx (op_name op) (op_style op) (op_points op) s.1, m).

(** [updateData] at the running polygon index. *)
Definition drawAt (s : nat * list obj) (op : Op) : nat * list obj :=
  (S s.1, updateData s.1 (op_name op) (op_style op) (op_points op) s.2).

(** [updateData] at given indices. *)
Definition drawIndexed (ds : list obj) (iop : nat * Op) : list obj :=
  updateData iop.1 (op_name iop.2) (op_style iop.2) (op_points iop.2) ds.

(** Only the in-place half of [updateData]. *)
Definition rewriteIndexed (ds : list obj) (iop : nat * Op) : list obj :=
  alter (setSeries (op_name iop.2) (op_points iop.2)) iop.1 ds.

Definition indexedBy (m : gmap string nat) (ops : list Op) : list (nat * Op) :=
  (fun op => (default 0 (m !! op_name op), op)) <$> ops.

Definition indexedFrom (k : nat) (ops : list Op) : list (nat * Op) :=
  imap (fun i op => (k + i, op)) ops.

(** Every index is at most the length the array has when it is used. *)
Fixpoint inRange (iops : list (nat * Op)) (ds : list obj) : Prop :=
  match iops with
  | [] => True
  | iop :: iops' => iop.1 ≤ length ds ∧ inRange iops' (drawIndexed ds iop)
  end.

(** The writes to the style store of one pass over the cars. *)
Definition markAll (ls : list (option loc)) (h : gmap loc obj) : gmap loc obj :=
  fold_left
    (fun h ol => match ol with Some l => alter markCar l h | None => h end) ls h.

(** Two stores that [updateCar] cannot tell apart. *)
Definition sameMarked (h h0 : gmap loc obj) : Prop :=
  ∀ l, markCar (default ∅ (h !! l)) = markCar (default ∅ (h0 !! l)).

Definition carLocs (p : PropBundle) : list (option loc) :=
  prop (prop_cars p) <$> keys (prop_cars p).

(** *** Names and counts *)






(** *** Registry conditions *)


(** Every registered name points at an existing series. *)
Definition noDangling (w : World) : Prop :=
  (∀ name i, name2idx w !! name = Some i → i < length (datasets w)) ∧
  size (name2idx w) ≤ length (datasets w).

(** A style object that does not itself define the two keys that
    [updateData] assigns on later frames. *)
Definition plain (o : obj) : Prop := o !! "text" = None ∧ o !! "data" = None.

Definition plainOp (iop : nat * Op) : Prop := plain (op_style iop.2).



(** Every registered name of a state of the names loop points into the
    array. *)
Definition below (s : list obj * gmap string nat) : Prop :=
  ∀ n i, s.2 !! n = Some i → i < length s.1.

Definition plainStyles (h : gmap loc obj) (p : PropBundle) : Prop :=
  (∀ name l o, prop (prop_cars p) name = Some l → h !! l = Some o → plain o) ∧
  (∀ name o, prop (prop_lines p) name = Some o → plain o) ∧
  (∀ name o, prop (prop_polygons p) name = Some o → plain o).

End Pipeline.

(** What the axis callbacks see of the dataset array: Chart.js supplies the
    visibility, the axis binding and the per-element [hidden] flags. *)
Record Meta := mkMeta {
  isDatasetVisible : bool;
  meta_xAxisID : string;
  meta_yAxisID : string;
  meta_hidden : nat → bool
}.

Definition dataPoints (d : obj) : list Point :=
  match get d "data" with
  | VPoints ps => ps
  | _ => []
  end.

Definition plotted (metas : nat → Meta) (ds : list obj) : list Axis.Plotted :=
  imap (fun i d =>
    Axis.mkPlotted (isDatasetVisible (metas i)) (meta_xAxisID (metas i))
      (meta_yAxisID (metas i))
      (imap (fun j pt => (pt, meta_hidden (metas i) j)) (dataPoints d))) ds.

(** *** Concrete frames used below *)

(** A stand-in for the store's geometry function. *)
Definition noBox : coord → coord → coord → list Point := fun _ _ _ => [].

Definition egoPoint : Point :=
  mkPoint (CNum (Axis.num 0)) (CNum (Axis.num 0)) (CNum (Axis.num 0)).

Definition egoStore : gmap loc obj := {[ 1%positive := {[ "color" := VStr "red" ]} ]}.

(** [data = {cars: {ego: {x:0, y:0, heading:0}}}],
    [properties = {cars: {ego: {color: 'red'}}}]. *)
Definition egoFrame : Props :=
  mkProps (Some (mkData [("ego", egoPoint)] [] []))
          (Some (mkProperties [("ego", 1%positive)] [] [])).

(** Lines with empty styles and no points. *)
Definition linesFrame (names : list string) : Props :=
  mkProps (Some (mkData [] ((fun n => (n, [])) <$> names) []))
          (Some (mkProperties [] ((fun n => (n, ∅)) <$> names) [])).

(** Polygons with the default style and no points. *)
Definition polygonsFrame (names : list string) : Props :=
  mkProps (Some (mkData [] [] ((fun n => (n, Some [])) <$> names)))
          (Some (mkProperties [] [] [])).

(** One line whose style object has a [text] key of its own. *)
Definition captionFrame : Props :=
  mkProps (Some (mkData [] [("l", [])] []))
          (Some (mkProperties [] [("l", {[ "text" := VStr "hello" ]})] [])).


(** The pair (label, text) of every series. *)
Definition captions (w : World) : list (value * value) :=
  (fun d => (get d "label", get d "text")) <$> datasets w.

End Registry.

(** ** Graph construction *)

Module Construct.
Import Registry.

(** The fields of [setting] that [generateScatterGraph] reads; the chart
    options are passed through untouched, so their type is left open. *)
Record Setting (Options : Type) := mkSetting {
  title : string;
  setting_properties : option PropBundle;
  setting_options : option Options
}.
Arguments mkSetting {Options}.
Arguments title {Options}.
Arguments setting_properties {Options}.
Arguments setting_options {Options}.

(** The [<ScatterGraph .../>] element. *)
Record Element (Options : Type) := mkElement {
  el_key : string;
  el_title : string;
  el_options : Options;
  el_properties : PropBundle;
  el_lines : jsobject (list Point);
  el_cars : option (jsobject Point);
  el_polygons : option (jsobject (option (list Point)))
}.
Arguments mkElement {Options}.

(** A call either throws, or returns a value ([None] is [null]) after
    writing lines to [console.error]. *)
Inductive outcome (A : Type) :=
| Throws
| Returns (console : list (string * string)) (result : option A).
Arguments Throws {A}.
Arguments Returns {A}.

(** [generateScatterGraph(setting, lineDatasets, carDatasets,
    polygonsDatasets)]; an argument that is [undefined] or [null] is [None].
    In the guarded branch the message reads [setting.title], which throws
    when [setting] itself is what is missing. *)
Definition generateScatterGraph {Options : Type}
    (setting : option (Setting Options))
    (lineDatasets : option (jsobject (list Point)))
    (carDatasets : option (jsobject Point))
    (polygonsDatasets : option (jsobject (option (list Point))))
    : outcome (Element Options) :=
  match lineDatasets, setting,
        setting ≫= setting_properties, setting ≫= setting_options with
  | Some lines, Some st, Some properties, Some options =>
      Returns []
        (Some (mkElement (title st) (title st) options properties
                 lines carDatasets polygonsDatasets))
  | _, _, _, _ =>
      match setting with
      | Some st => Returns [("Graph setting or data not found:", title st)] None
      | None => Throws
      end
  end.

(** What the guard of [generateScatterGraph] tests once [setting] is there. *)
Definition incomplete {Options : Type} (st : Setting Options)
    (lineDatasets : option (jsobject (list Point))) : Prop :=
  lineDatasets = None ∨ setting_properties st = None ∨ setting_options st = None.

End Construct.

(** ** Views of the plotted data *)

Module AxisViews.
Import Axis.
Local Open Scope Qc_scope.

(** A dataset without the points that [syncXYWindowSize] skips. *)
Definition isFinitePoint (p : Point * bool) : bool :=
  match finitePoint p with
  | Some _ => true
  | None => false
  end.

Definition keepFinite (d : Plotted) : Plotted :=
  mkPlotted (visible d) (xAxisID d) (yAxisID d)
            (filter (fun p => isFinitePoint p) (points d)).

(** The chart without its invisible datasets and skipped points. *)
Definition pruned (datasets : list Plotted) : list Plotted :=
  keepFinite <$> filter (fun d => visible d) datasets.

(** The coordinate of a finite point that belongs to the scale. *)
Definition along (scale : Scale) (v : Qc * Qc) : Qc :=
  if isHorizontal scale then v.1 else v.2.

End AxisViews.

(** ** Chart construction and the component's life cycle *)

Module Canvas.
Import Registry.
Local Open Scope Qc_scope.

(** One entry of [options.axes]. *)
Record AxisSetting := mkAxisSetting {
  labelString : option string;
  setting_min : option Qc;
  setting_max : option Qc;
  stepSize : option Qc;
  windowSize : option Qc;
  midValue : option Qc
}.

(** [options]: [legend] is [None] when [options.legend] is missing and
    otherwise holds [options.legend.display]; [syncXY] is the truthiness of
    [options.syncXYWindowSize]. *)
Record Options := mkOptions {
  legend : option (option bool);
  aspectRatio : option Qc;
  axes : option (jsobject AxisSetting);
  syncXY : bool
}.

(** The two functions that [initializeCanvas] installs as
    [afterDataLimits]: the closure over [setting.windowSize] and
    [setting.midValue], and [syncXYWindowSize] itself. *)
Inductive callback :=
| FixedWindow (windowSize : Qc) (midValue : option Qc)
| JointFit.


Record AxisOptions := mkAxisOptions {
  axis_id : string;
  scaleLabel_display : bool;
  scaleLabel_labelString : option string;
  ticks_min : option Qc;
  ticks_max : option Qc;
  ticks_minRotation : nat;
  ticks_maxRotation : nat;
  ticks_stepSize : option Qc;
  gridLines_color : string;
  gridLines_zeroLineColor : string;
  afterDataLimits : option callback
}.

Record ChartOptions := mkChartOptions {
  title_display : bool;
  title_text : option string;
  legend_display : option bool;
  legend_labels_filter : string → bool;
  tooltips_enable : bool;
  tooltips_mode : string;
  tooltips_intersect : bool;
  chart_aspectRatio : option Qc;
  scales : option (gmap string (list AxisOptions))
}.

(** Truthiness of a string that may be missing ([title && title.length > 0],
    [!_.isEmpty(setting.labelString)]). *)
Definition nonEmpty (s : option string) : bool :=
  match s with
  | Some t => negb (bool_decide (t = ""))
  | None => false
  end.

(** The [afterDataLimits] that the loop gives an axis, if any. *)
Definition limitsCallback (options : Options) (setting : AxisSetting)
    : option callback :=
  if Axis.truthy (windowSize setting)
  then Some (FixedWindow (default 0 (windowSize setting)) (midValue setting))
  else if syncXY options then Some JointFit
  else None.

Definition axisOptionsOf (options : Options) (axis : string)
    (setting : AxisSetting) : AxisOptions :=
  {| axis_id := axis +:+ "-axis-0";
     scaleLabel_display := nonEmpty (labelString setting);
     scaleLabel_labelString := labelString setting;
     ticks_min := setting_min setting;
     ticks_max := setting_max setting;
     ticks_minRotation := 0;
     ticks_maxRotation := 0;
     ticks_stepSize := stepSize setting;
     gridLines_color := "rgba(153, 153, 153, 0.5)";
     gridLines_zeroLineColor := "rgba(153, 153, 153, 0.7)";
     afterDataLimits := limitsCallback options setting |}.

(** One round of [for (const axis in options.axes)]. *)
Definition addAxis (options : Options) (axes : jsobject AxisSetting)
    (scales : gmap string (list AxisOptions)) (axis : string)
    : gmap string (list AxisOptions) :=
  let name := axis +:+ "Axes" in
  match prop axes axis with
  | Some setting =>
      <[name := default [] (scales !! name) ++ [axisOptionsOf options axis setting]]>
        scales
  | None => scales
  end.

(** [initializeCanvas(title, options)], as the chart options handed to
    [new Chart]; [None] is the [TypeError] of [options.legend.display] on a
    missing [options.legend].  The registry and the dataset array start as
    [Registry.initial]. *)
Definition initializeCanvas (title : option string) (options : Options)
    : option ChartOptions :=
  match legend options with
  | None => None
  | Some display =>
      Some {| title_display := nonEmpty title;
              title_text := title;
              legend_display := display;
              legend_labels_filter := legendFilter;
              tooltips_enable := true;
              tooltips_mode := "nearest";
              tooltips_intersect := false;
              chart_aspectRatio := aspectRatio options;
              scales :=
                match axes options with
                | Some axes => Some (fold_left (addAxis options axes) (keys axes) ∅)
                | None => None
                end |}
  end.

Section LifeCycle.
Variable calculateCarPolygonPoints : coord → coord → coord → list Point.


(** [componentWillReceiveProps(nextProps)]. *)
Definition componentWillReceiveProps (nextProps : Props) (w : World) : World :=
  updateChart calculateCarPolygonPoints nextProps w.

End LifeCycle.

(** Concrete settings used below. *)
Definition windowed (w : Qc) : AxisSetting :=
  mkAxisSetting (Some "x") None None None (Some w) None.
Definition plainAxis : AxisSetting :=
  mkAxisSetting None None None None None None.
Definition squareOptions : Options :=
  mkOptions (Some (Some true)) None
    (Some [("x", windowed (Axis.num 20)); ("y", plainAxis)]) true.

End Canvas.

(** ** The draw pass after the datasets *)

Module Overlay.
Import Registry.
Local Open Scope Qc_scope.

(** What the plugin does to the canvas context, in order. *)
Inductive canvasOp :=
| Save
| Restore
| SetFont (px : nat) (style family : string)
| SetFillStyle (v : value)
| SetTextAlign (s : string)
| SetTextBaseline (s : string)
| FillText (text : value) (x y : Qc)
| Translate (x y : Qc)
| Rotate (angle : coord).

(** Truthiness of a stored value. *)
Definition truthyValue (v : value) : bool :=
  match v with
  | VUndefined => false
  | VBool b => b
  | VNum q => negb (bool_decide (q = 0))
  | VStr s => negb (bool_decide (s = ""))
  | VPoints _ => true
  end.

(** [v === 'car']. *)
Definition isCar (v : value) : bool :=
  match v with
  | VStr s => bool_decide (s = "car")
  | _ => false
  end.

(** [heading || 0]. *)
Definition orZero (heading : coord) : coord :=
  match heading with
  | CUndefined | CNull | CNaN => CNum 0
  | CInfinity b => CInfinity b
  | CNum q => if bool_decide (q = 0) then CNum 0 else CNum q
  end.

(** Unary minus. *)
Definition negate (c : coord) : coord :=
  match c with
  | CUndefined | CNaN => CNaN
  | CNull => CNum 0
  | CInfinity b => CInfinity (negb b)
  | CNum q => CNum (- q)
  end.

(** [data[0].heading]: [None] is the [TypeError] of reading a property of
    [undefined]. *)
Definition firstHeading (data : value) : option coord :=
  match data with
  | VPoints (p :: _) => Some (pt_heading p)
  | VStr (String _ _) => Some CUndefined
  | _ => None
  end.

(** The geometry of a scale that the plugin reads. *)
Record ScaleBox := mkScaleBox {
  box_width : Qc;
  box_height : Qc;
  box_max : Qc;
  box_min : Qc
}.

Definition arrowGlyph : string := "➡".

Definition labelStyle (dataset : obj) : list canvasOp :=
  [SetFont 15 "normal" "Helvetica Neue";
   SetFillStyle (get dataset "borderColor");
   SetTextAlign "center";
   SetTextBaseline "middle"].

Section Plugin.

(** The angle [rotationInPixels] that the plugin derives from the heading
    and the two scales with [Math.cos], [Math.tan] and [Math.atan2]. *)
Variable rotationInPixels : coord → ScaleBox → ScaleBox → coord.

(** The body of the [forEach] for one dataset with the positions of its meta
    elements; the flag is [false] when the body throws, after the operations
    listed. *)
Definition drawDataset (chartScales : gmap string ScaleBox) (dataset : obj)
    (meta : list (Qc * Qc)) : list canvasOp * bool :=
  if truthyValue (get dataset "showText") then
    match meta !! (length meta / 2)%nat with
    | Some position =>
        (labelStyle dataset ++
         [FillText (get dataset "text") position.1
                   (position.2 - Axis.num 15 / 2 - 1)], true)
    | None => (labelStyle dataset, false)
    end
  else if isCar (get dataset "specialMarker") then
    match firstHeading (get dataset "data"),
          chartScales !! "x-axis-0", chartScales !! "y-axis-0", meta !! 0%nat with
    | Some heading, Some xAxis, Some yAxis, Some position =>
        ([Save;
          SetFont 20 "normal" "Helvetica Neue";
          Translate position.1 position.2;
          Rotate (negate (rotationInPixels (orZero heading) xAxis yAxis));
          SetFillStyle (get dataset "borderColor");
          FillText (VStr arrowGlyph) 0 0;
          Restore], true)
    | _, _, _, _ => ([Save], false)
    end
  else ([], true).

(** [afterDatasetsDraw]: the datasets in order, from index [index]; an
    exception ends the pass. *)
Fixpoint drawFrom (chartScales : gmap string ScaleBox)
    (metas : nat → list (Qc * Qc)) (index : nat) (datasets : list obj)
    : list canvasOp * bool :=
  match datasets with
  | [] => ([], true)
  | dataset :: rest =>
      let r := drawDataset chartScales dataset (metas index) in
      if r.2 then
        let r' := drawFrom chartScales metas (S index) rest in
        (r.1 ++ r'.1, r'.2)
      else r
  end.

Definition afterDatasetsDraw (chartScales : gmap string ScaleBox)
    (metas : nat → list (Qc * Qc)) (datasets : list obj) : list canvasOp * bool :=
  drawFrom chartScales metas 0 datasets.

End Plugin.

Definition isSave (op : canvasOp) : bool :=
  match op with Save => true | _ => false end.
Definition isRestore (op : canvasOp) : bool :=
  match op with Restore => true | _ => false end.

End Overlay.

(** ** Views of the pipeline *)

Module RegistryViews.
Import Registry.


(** The keys that the in-place branch of [updateData] leaves alone. *)
Definition styleKey (key : string) : Prop := key ≠ "text" ∧ key ≠ "data".

(** A frame is accepted when both payloads are there. *)
Definition accepted (props : Props) : Prop :=
  is_Some (data props) ∧ is_Some (properties props).


End RegistryViews.

(** * Properties of the Axis Window Controller *)

Module AxisProps.
Import Axis.
Local Open Scope Qc_scope.

Lemma Qcltb_lt (a b : Qc) : Qcltb a b = true ↔ a < b.
Proof.
  unfold Qcltb, Qclt, Qccompare. rewrite Qlt_alt.
  destruct (this a ?= this b)%Q; split; congruence.
Qed.

Lemma Qcltb_ge (a b : Qc) : Qcltb a b = false ↔ b <= a.
Proof.
  rewrite <- not_true_iff_false, Qcltb_lt. split.
  - apply Qcnot_lt_le.
  - apply Qcle_not_lt.
Qed.


(** The running minimum of [lower] is the least element seen so far. *)
Lemma lower_fold (vs : list Qc) (m0 : Qc) :
  ∃ m, fold_left lower vs (Some m0) = Some m ∧ least (m0 :: vs) m.
Proof.
  revert m0. induction vs as [|v vs IH]; intros m0; simpl.
  - exists m0. split; [done|]. split; [left|].
    intros w Hw. apply list_elem_of_singleton in Hw as ->. apply Qcle_refl.
  - destruct (Qcltb v m0) eqn:E.
    + apply Qcltb_lt in E. destruct (IH v) as (m & -> & Hin & Hle).
      exists m. split; [done|]. split.
      * right. done.
      * intros w Hw. apply elem_of_cons in Hw as [->|Hw]; [|by apply Hle].
        apply Qcle_trans with v; [apply Hle; left | by apply Qclt_le_weak].
    + apply Qcltb_ge in E. destruct (IH m0) as (m & -> & Hin & Hle).
      exists m. split; [done|]. split.
      * apply elem_of_cons in Hin as [->|Hin]; [left | right; by right].
      * intros w Hw. apply elem_of_cons in Hw as [->|Hw]; [apply Hle; left|].
        apply elem_of_cons in Hw as [->|Hw]; [|apply Hle; by right].
        apply Qcle_trans with m0; [apply Hle; left | done].
Qed.

Lemma raise_fold (vs : list Qc) (m0 : Qc) :
  ∃ m, fold_left raise vs (Some m0) = Some m ∧ greatest (m0 :: vs) m.
Proof.
  revert m0. induction vs as [|v vs IH]; intros m0; simpl.
  - exists m0. split; [done|]. split; [left|].
    intros w Hw. apply list_elem_of_singleton in Hw as ->. apply Qcle_refl.
  - destruct (Qcltb m0 v) eqn:E.
    + apply Qcltb_lt in E. destruct (IH v) as (m & -> & Hin & Hle).
      exists m. split; [done|]. split.
      * right. done.
      * intros w Hw. apply elem_of_cons in Hw as [->|Hw]; [|by apply Hle].
        apply Qcle_trans with v; [by apply Qclt_le_weak | apply Hle; left].
    + apply Qcltb_ge in E. destruct (IH m0) as (m & -> & Hin & Hle).
      exists m. split; [done|]. split.
      * apply elem_of_cons in Hin as [->|Hin]; [left | right; by right].
      * intros w Hw. apply elem_of_cons in Hw as [->|Hw]; [apply Hle; left|].
        apply elem_of_cons in Hw as [->|Hw]; [|apply Hle; by right].
        apply Qcle_trans with m0; [done | apply Hle; left].
Qed.

(** The nested loops of [syncXYWindowSize] visit exactly the finite points. *)
Lemma visitPoint_finite (e : Extent) (p : Point * bool) :
  visitPoint e p =
    match finitePoint p with
    | Some (vx, vy) =>
        {| min_x := lower (min_x e) vx; max_x := raise (max_x e) vx;
           min_y := lower (min_y e) vy; max_y := raise (max_y e) vy |}
    | None => e
    end.
Proof.
  destruct p as [[px py ph] hidden]. unfold visitPoint, finitePoint; simpl.
  destruct px, py, hidden; reflexivity.
Qed.

Lemma visitPoints_fields (ps : list (Point * bool)) (e : Extent) :
  let vs := omap finitePoint ps in
  fold_left visitPoint ps e =
    {| min_x := fold_left lower vs.*1 (min_x e);
       max_x := fold_left raise vs.*1 (max_x e);
       min_y := fold_left lower vs.*2 (min_y e);
       max_y := fold_left raise vs.*2 (max_y e) |}.
Proof.
  revert e. induction ps as [|p ps IH]; intros e; simpl.
  - by destruct e.
  - rewrite IH, visitPoint_finite.
    destruct (finitePoint p) as [[vx vy]|]; reflexivity.
Qed.

Lemma visitDatasets_fields (scale : Scale) (ds : list Plotted) (e : Extent) :
  let vs := finitePoints scale ds in
  fold_left (visitDataset scale) ds e =
    {| min_x := fold_left lower vs.*1 (min_x e);
       max_x := fold_left raise vs.*1 (max_x e);
       min_y := fold_left lower vs.*2 (min_y e);
       max_y := fold_left raise vs.*2 (max_y e) |}.
Proof.
  revert e. induction ds as [|d ds IH]; intros e; simpl.
  - by destruct e.
  - rewrite IH. unfold visitDataset.
    destruct (visible d && IDMatches scale d); simpl.
    + rewrite visitPoints_fields; simpl.
      rewrite !fmap_app, !fold_left_app. reflexivity.
    + reflexivity.
Qed.

Lemma dataExtent_empty (scale : Scale) (ds : list Plotted) :
  finitePoints scale ds = [] → dataExtent scale ds = noExtent.
Proof.
  intros H. unfold dataExtent. rewrite visitDatasets_fields. simpl.
  rewrite H. reflexivity.
Qed.

Lemma dataExtent_nonempty (scale : Scale) (ds : list Plotted) :
  finitePoints scale ds ≠ [] →
  ∃ minx maxx miny maxy,
    dataExtent scale ds = mkExtent (Some minx) (Some maxx) (Some miny) (Some maxy)
    ∧ least (finitePoints scale ds).*1 minx
    ∧ greatest (finitePoints scale ds).*1 maxx
    ∧ least (finitePoints scale ds).*2 miny
    ∧ greatest (finitePoints scale ds).*2 maxy.
Proof.
  intros H. unfold dataExtent. rewrite visitDatasets_fields. simpl.
  destruct (finitePoints scale ds) as [|[vx vy] vs]; [done|].
  rewrite !fmap_cons. cbn [fold_left fst snd lower raise min_x max_x min_y max_y noExtent].
  destruct (lower_fold vs.*1 vx) as (a & -> & Ha).
  destruct (raise_fold vs.*1 vx) as (b & -> & Hb).
  destruct (lower_fold vs.*2 vy) as (c & -> & Hc).
  destruct (raise_fold vs.*2 vy) as (d & -> & Hd).
  by exists a, b, c, d.
Qed.

Lemma least_unique (l : list Qc) (a b : Qc) : least l a → least l b → a = b.
Proof. intros [Ha Hla] [Hb Hlb]. apply Qcle_antisym; auto. Qed.

Lemma greatest_unique (l : list Qc) (a b : Qc) : greatest l a → greatest l b → a = b.
Proof. intros [Ha Hla] [Hb Hlb]. apply Qcle_antisym; auto. Qed.

Lemma least_nonempty (l : list Qc) (m : Qc) : least l m → l ≠ [].
Proof. intros [Hin _] ->. by apply not_elem_of_nil in Hin. Qed.


Lemma syncXYWindowSize_cases (ds : list Plotted) (scale : Scale) :
  (finitePoints scale ds = [] ∧ syncXYWindowSize ds scale = scale) ∨
  (∃ minx maxx miny maxy,
     least (finitePoints scale ds).*1 minx ∧ greatest (finitePoints scale ds).*1 maxx ∧
     least (finitePoints scale ds).*2 miny ∧ greatest (finitePoints scale ds).*2 maxy ∧
     syncXYWindowSize ds scale =
       let max_diff := Math_max (maxx - minx) (maxy - miny) in
       let mid := if isHorizontal scale then Math_floor ((maxx + minx) / 2)
                  else Math_floor ((maxy + miny) / 2) in
       mkScale (scale_id scale) (isHorizontal scale)
               (mid + max_diff / 2) (mid - max_diff / 2)).
Proof.
  destruct (finitePoints scale ds) as [|p ps] eqn:E.
  - left. split; [done|]. unfold syncXYWindowSize.
    by rewrite dataExtent_empty.
  - right. destruct (dataExtent_nonempty scale ds) as (a & b & c & d & He & H).
    { by rewrite E. }
    rewrite E in H. exists a, b, c, d. destruct H as (?&?&?&?).
    repeat (split; [done|]). unfold syncXYWindowSize. rewrite He. reflexivity.
Qed.

(** C1 (as amended): when the scale sees at least one visible point with
    finite x and y, [syncXYWindowSize] sets its range to
    [[mid - d/2, mid + d/2]], where [d] is the larger of the two data spans
    and [mid] is the floor of the arithmetic mean of that axis's own least and
    greatest data value. *)
Theorem syncXYWindowSize_range (ds : list Plotted) (scale : Scale)
    (minx maxx miny maxy : Qc) :
  least (finitePoints scale ds).*1 minx →
  greatest (finitePoints scale ds).*1 maxx →
  least (finitePoints scale ds).*2 miny →
  greatest (finitePoints scale ds).*2 maxy →
  let d := Math_max (maxx - minx) (maxy - miny) in
  let mid := Math_floor (if isHorizontal scale then (maxx + minx) / 2
                         else (maxy + miny) / 2) in
  scale_min (syncXYWindowSize ds scale) = mid - d / 2 ∧
  scale_max (syncXYWindowSize ds scale) = mid + d / 2.
Proof.
  intros Ha Hb Hc Hd.
  destruct (syncXYWindowSize_cases ds scale) as [[E _]|(a & b & c & d' & Ha' & Hb' & Hc' & Hd' & ->)].
  - apply least_nonempty in Ha. rewrite E in Ha. done.
  - rewrite (least_unique _ _ _ Ha Ha'), (greatest_unique _ _ _ Hb Hb'),
      (least_unique _ _ _ Hc Hc'), (greatest_unique _ _ _ Hd Hd').
    simpl. by destruct (isHorizontal scale).
Qed.

Ltac least_greatest :=
  split; [ repeat constructor
         | intros v Hv; repeat (apply elem_of_cons in Hv as [->|Hv]; [done|]);
           by apply not_elem_of_nil in Hv ].

(** The scenario of the specification: points (0,0) and (10,4) give the x
    range [[0,10]] and the y range [[-3,7]]. *)
Lemma syncXYWindowSize_range_witness :
  let ds := [onBoth [xy 0 0; xy 10 4]] in
  (scale_min (syncXYWindowSize ds (xAxis 0 1)) = num 0 ∧
   scale_max (syncXYWindowSize ds (xAxis 0 1)) = num 10) ∧
  (scale_min (syncXYWindowSize ds (yAxis 0 1)) = num (-3) ∧
   scale_max (syncXYWindowSize ds (yAxis 0 1)) = num 7).
Proof.
  split.
  - apply (syncXYWindowSize_range [onBoth [xy 0 0; xy 10 4]] (xAxis 0 1)
             (num 0) (num 10) (num 0) (num 4)); least_greatest.
  - apply (syncXYWindowSize_range [onBoth [xy 0 0; xy 10 4]] (yAxis 0 1)
             (num 0) (num 10) (num 0) (num 4)); least_greatest.
Defined.

(** C1 as stated fails: for the points (0,0) and (1,0) the x axis has data
    midpoint 1/2 and [d = 1], so the stated range is [[0,1]]; the code floors
    the midpoint to 0 and sets [[-1/2, 1/2]]. *)
Lemma syncXYWindowSize_midpoint_not_mean :
  let ds := [onBoth [xy 0 0; xy 1 0]] in
  let mean := (num 1 + num 0) / 2 in
  let d := Math_max (num 1 - num 0) (num 0 - num 0) in
  least (finitePoints (xAxis 0 1) ds).*1 (num 0) ∧
  greatest (finitePoints (xAxis 0 1) ds).*1 (num 1) ∧
  least (finitePoints (xAxis 0 1) ds).*2 (num 0) ∧
  greatest (finitePoints (xAxis 0 1) ds).*2 (num 0) ∧
  scale_min (syncXYWindowSize ds (xAxis 0 1)) = - half ∧
  scale_max (syncXYWindowSize ds (xAxis 0 1)) = half ∧
  scale_min (syncXYWindowSize ds (xAxis 0 1)) ≠ mean - d / 2 ∧
  scale_max (syncXYWindowSize ds (xAxis 0 1)) ≠ mean + d / 2.
Proof.
  repeat split; try (repeat constructor; fail);
    try (intros v Hv; repeat (apply elem_of_cons in Hv as [->|Hv]; [done|]);
         by apply not_elem_of_nil in Hv);
    discriminate.
Qed.






Lemma no_finitePoints (ds : list Plotted) (scale : Scale) :
  (∀ d p hidden, d ∈ ds → visible d = true → (p, hidden) ∈ points d →
     hidden = false →
     ¬ (isValidValue (pt_x p) = true ∧ isValidValue (pt_y p) = true)) →
  finitePoints scale ds = [].
Proof.
  intros H. unfold finitePoints. induction ds as [|d ds IH]; [done|]. simpl.
  rewrite IH by (intros d' p h Hd'; apply H; by right). rewrite app_nil_r.
  destruct (visible d) eqn:Hv; [|done].
  destruct (IDMatches scale d); [|done]. simpl.
  assert (Hd : ∀ p hidden, (p, hidden) ∈ points d → hidden = false →
     ¬ (isValidValue (pt_x p) = true ∧ isValidValue (pt_y p) = true)).
  { intros p h. apply H; [left|done]. }
  clear H IH. induction (points d) as [|[p h] ps IHp]; [done|].
  change (omap finitePoint ((p, h) :: ps))
    with (match finitePoint (p, h) with
          | Some v => v :: omap finitePoint ps
          | None => omap finitePoint ps
          end).
  rewrite IHp by (intros p' h' Hp'; apply Hd; by right).
  specialize (Hd p h). unfold finitePoint; simpl.
  destruct (pt_x p), (pt_y p), h; try done.
  exfalso. apply Hd; [left|done|done].
Qed.

(** C6: when no visible, non-hidden point has both coordinates finite,
    [syncXYWindowSize] leaves the scale as it was. *)
Theorem syncXYWindowSize_no_data (ds : list Plotted) (scale : Scale) :
  (∀ d p hidden, d ∈ ds → visible d = true → (p, hidden) ∈ points d →
     hidden = false →
     ¬ (isValidValue (pt_x p) = true ∧ isValidValue (pt_y p) = true)) →
  syncXYWindowSize ds scale = scale ∧
  scale_min (syncXYWindowSize ds scale) = scale_min scale ∧
  scale_max (syncXYWindowSize ds scale) = scale_max scale.
Proof.
  intros H. apply (no_finitePoints ds scale) in H.
  destruct (syncXYWindowSize_cases ds scale) as [[_ ->]|(a & _ & _ & _ & Ha & _)].
  - done.
  - apply least_nonempty in Ha. by rewrite H in Ha.
Qed.

Lemma syncXYWindowSize_no_data_witness :
  let ds := [onBoth [(mkPoint CNaN (CNum (num 3)) CUndefined, false);
                     (mkPoint (CNum (num 1)) (CNum (num 2)) CUndefined, true)]] in
  syncXYWindowSize ds (xAxis (num 2) (num 9)) = xAxis (num 2) (num 9) ∧
  scale_min (syncXYWindowSize ds (xAxis (num 2) (num 9))) = num 2 ∧
  scale_max (syncXYWindowSize ds (xAxis (num 2) (num 9))) = num 9.
Proof.
  apply (syncXYWindowSize_no_data
    [onBoth [(mkPoint CNaN (CNum (num 3)) CUndefined, false);
             (mkPoint (CNum (num 1)) (CNum (num 2)) CUndefined, true)]]
    (xAxis (num 2) (num 9))).
  intros d p hidden Hd _ Hp Hh [Hx Hy].
  apply list_elem_of_singleton in Hd as ->. simpl in Hp.
  apply elem_of_cons in Hp as [Hp|Hp].
  - injection Hp as -> _. discriminate Hx.
  - apply list_elem_of_singleton in Hp. injection Hp as _ ->. discriminate Hh.
Defined.

End AxisProps.

(** * Properties of the Dataset Registry and the Frame Update Pipeline *)

Module RegistryProps.
Import Registry.

(** ** [updateData] *)

Lemma list_alter_ge {A} (f : A → A) (l : list A) i :
  length l ≤ i → alter f i l = l.
Proof.
  intros H. apply list_eq. intros j. destruct (decide (i = j)) as [->|Hne].
  - by rewrite list_lookup_alter_eq, (lookup_ge_None_2 l j H).
  - by rewrite list_lookup_alter_ne.
Qed.

Lemma updateData_lt idx name p d (ds : list obj) :
  idx < length ds →
  updateData idx name p d ds = alter (setSeries name d) idx ds.
Proof.
  intros H. unfold updateData.
  destruct (lookup_lt_is_Some_2 ds idx H) as [x Hx]. rewrite Hx.
  apply list_eq. intros j. destruct (decide (idx = j)) as [->|Hne].
  - rewrite list_lookup_insert_eq by done. by rewrite list_lookup_alter_eq, Hx.
  - by rewrite list_lookup_insert_ne, list_lookup_alter_ne.
Qed.

Lemma updateData_ge idx name p d (ds : list obj) :
  length ds ≤ idx →
  updateData idx name p d ds = ds ++ [newConfig name p d].
Proof.
  intros H. unfold updateData. by rewrite (lookup_ge_None_2 ds idx H).
Qed.

Lemma length_updateData idx name p d (ds : list obj) :
  length (updateData idx name p d ds) =
    if decide (idx < length ds) then length ds else S (length ds).
Proof.
  case_decide as H.
  - by rewrite updateData_lt, length_alter.
  - rewrite updateData_ge by lia. rewrite length_app. simpl. lia.
Qed.

Lemma length_updateData_ge idx name p d (ds : list obj) :
  length ds ≤ length (updateData idx name p d ds).
Proof. rewrite length_updateData. case_decide; lia. Qed.

(** Below the current length [updateData] only rewrites in place. *)
Lemma take_updateData n idx name p d (ds : list obj) :
  n ≤ length ds →
  take n (updateData idx name p d ds) = alter (setSeries name d) idx (take n ds).
Proof.
  intros H. destruct (decide (idx < length ds)) as [Hlt|Hge].
  - rewrite updateData_lt by done. destruct (decide (idx < n)).
    + by rewrite take_alter_lt.
    + rewrite take_alter_ge by lia.
      symmetry. apply list_alter_ge. rewrite length_take. lia.
  - rewrite updateData_ge by lia. rewrite take_app_le by done.
    symmetry. apply list_alter_ge. rewrite length_take. lia.
Qed.

Lemma setSeries_setSeries name d name' d' (o : obj) :
  setSeries name d (setSeries name' d' o) = setSeries name d o.
Proof.
  unfold setSeries. apply map_eq. intros k.
  rewrite !lookup_insert. repeat case_decide; congruence.
Qed.

Lemma setSeries_newConfig name p d :
  plain p → setSeries name d (newConfig name p d) = newConfig name p d.
Proof.
  intros [Ht Hd]. unfold setSeries.
  assert (Hd' : newConfig name p d !! "data" = Some (VPoints d)).
  { unfold newConfig. rewrite lookup_union_r by done. by rewrite lookup_insert_eq. }
  assert (Ht' : newConfig name p d !! "text" = Some (VStr name)).
  { unfold newConfig. rewrite lookup_union_r by done.
    by repeat (rewrite lookup_insert_ne by done); rewrite lookup_insert_eq. }
  rewrite (insert_id _ "text") by done. by rewrite insert_id.
Qed.

(** ** Indexed runs *)

Lemma length_drawIndexed_fold (iops : list (nat * Op)) (ds : list obj) :
  length ds ≤ length (fold_left drawIndexed iops ds).
Proof.
  revert ds. induction iops as [|iop iops IH]; intros ds; simpl; [done|].
  etrans; [|apply IH]. apply length_updateData_ge.
Qed.


Lemma take_drawIndexed_fold n (iops : list (nat * Op)) (ds : list obj) :
  n ≤ length ds →
  take n (fold_left drawIndexed iops ds) = fold_left rewriteIndexed iops (take n ds).
Proof.
  revert ds. induction iops as [|iop iops IH]; intros ds H; simpl; [done|].
  rewrite IH by (etrans; [done|apply length_updateData_ge]).
  unfold drawIndexed, rewriteIndexed. by rewrite take_updateData.
Qed.

Lemma take_rewriteIndexed_fold n (iops : list (nat * Op)) (ds : list obj) :
  take n (fold_left rewriteIndexed iops ds) = fold_left rewriteIndexed iops (take n ds).
Proof.
  revert ds. induction iops as [|iop iops IH]; intros ds; simpl; [done|].
  rewrite IH. f_equal. unfold rewriteIndexed.
  destruct (decide (iop.1 < n)).
  - by rewrite take_alter_lt.
  - rewrite take_alter_ge by lia.
    destruct (decide (iop.1 < length (take n ds))) as [Hlt|Hge].
    + rewrite length_take in Hlt. lia.
    + symmetry. apply list_alter_ge. lia.
Qed.

Lemma inRange_app (iops iops' : list (nat * Op)) (ds : list obj) :
  inRange (iops ++ iops') ds ↔
  inRange iops ds ∧ inRange iops' (fold_left drawIndexed iops ds).
Proof.
  revert ds. induction iops as [|iop iops IH]; intros ds; simpl.
  - tauto.
  - rewrite IH. tauto.
Qed.

(** After an in-range run every index used lies inside the array. *)
Lemma inRange_below (iops : list (nat * Op)) (ds : list obj) :
  inRange iops ds →
  Forall (fun iop => iop.1 < length (fold_left drawIndexed iops ds)) iops.
Proof.
  revert ds. induction iops as [|iop iops IH]; intros ds; simpl; [constructor|].
  intros [Hle Hr]. constructor.
  - eapply Nat.lt_le_trans; [|apply length_drawIndexed_fold].
    unfold drawIndexed. rewrite length_updateData. case_decide; lia.
  - by apply IH.
Qed.

(** A later write to a slot hides an earlier one to the same slot. *)
Lemma rewriteIndexed_absorb (iops : list (nat * Op)) (iop : nat * Op) (ds : list obj) :
  rewriteIndexed (fold_left rewriteIndexed iops (rewriteIndexed ds iop)) iop =
  rewriteIndexed (fold_left rewriteIndexed iops ds) iop.
Proof.
  revert ds. induction iops as [|jop iops IH]; intros ds; simpl.
  - unfold rewriteIndexed. rewrite list_alter_alter_eq.
    apply list_alter_ext; [|done]. intros o _. apply setSeries_setSeries.
  - destruct (decide (jop.1 = iop.1)) as [E|Hne].
    + f_equal. f_equal. unfold rewriteIndexed. rewrite E, list_alter_alter_eq.
      apply list_alter_ext; [|done]. intros o _. apply setSeries_setSeries.
    + replace (rewriteIndexed (rewriteIndexed ds iop) jop)
        with (rewriteIndexed (rewriteIndexed ds jop) iop).
      * apply IH.
      * unfold rewriteIndexed. apply list_alter_alter_ne. congruence.
Qed.

Lemma rewriteIndexed_fold_app (iops : list (nat * Op)) (ds ds' : list obj) :
  Forall (fun iop => iop.1 < length ds) iops →
  fold_left rewriteIndexed iops (ds ++ ds') = fold_left rewriteIndexed iops ds ++ ds'.
Proof.
  revert ds. induction iops as [|iop iops IH]; intros ds H; simpl; [done|].
  apply Forall_cons in H as [Hi H].
  unfold rewriteIndexed at 2. rewrite alter_app_l by done.
  apply IH. eapply Forall_impl; [done|]. intros x Hx.
  unfold rewriteIndexed. by rewrite length_alter.
Qed.

(** Re-running, in place, the writes of an in-range run changes nothing:
    every slot already holds what its last writer put there. *)
Lemma rewrite_after_draw (iops : list (nat * Op)) (ds : list obj) :
  inRange iops ds → Forall plainOp iops →
  fold_left rewriteIndexed iops (fold_left drawIndexed iops ds) =
  fold_left drawIndexed iops ds.
Proof.
  induction iops as [|iop iops IH] using rev_ind; [done|].
  rewrite inRange_app, Forall_app. intros [Hr [Hlast _]] [Hp Hplast].
  rewrite Forall_singleton in Hplast. simpl in Hlast.
  rewrite !fold_left_app. simpl.
  set (X := fold_left drawIndexed iops ds) in *.
  specialize (IH Hr Hp). fold X in IH.
  destruct (decide (iop.1 < length X)) as [Hlt|Hge].
  - unfold drawIndexed. rewrite updateData_lt by done.
    change (alter (setSeries (op_name iop.2) (op_points iop.2)) iop.1 X)
      with (rewriteIndexed X iop).
    rewrite rewriteIndexed_absorb. by rewrite IH.
  - unfold drawIndexed. rewrite updateData_ge by lia.
    rewrite rewriteIndexed_fold_app by (by apply inRange_below).
    rewrite IH. unfold rewriteIndexed.
    assert (iop.1 = length X) as -> by lia.
    rewrite alter_app_r_alt by lia. rewrite Nat.sub_diag. simpl.
    by rewrite setSeries_newConfig.
Qed.

(** ** Resolving names *)

Lemma resolveIdx_cases name (ds : list obj) (m : gmap string nat) :
  (∃ i, m !! name = Some i ∧ resolveIdx name ds m = (i, m)) ∨
  (m !! name = None ∧
   resolveIdx name ds m = (length ds, <[name := length ds]> m)).
Proof. unfold resolveIdx. destruct (m !! name) as [i|]; eauto. Qed.

Lemma resolveIdx_lookup name (ds : list obj) (m : gmap string nat) :
  (resolveIdx name ds m).2 !! name = Some (resolveIdx name ds m).1.
Proof.
  destruct (resolveIdx_cases name ds m) as [(i & Hi & ->)|[Hn ->]]; simpl.
  - done.
  - apply lookup_insert_eq.
Qed.

Lemma resolveIdx_mono name (ds : list obj) (m : gmap string nat) n i :
  m !! n = Some i → (resolveIdx name ds m).2 !! n = Some i.
Proof.
  intros H. destruct (resolveIdx_cases name ds m) as [(j & Hj & ->)|[Hn ->]]; simpl.
  - done.
  - rewrite lookup_insert_ne; [done|]. congruence.
Qed.

Lemma drawNamed_eq (ds : list obj) (m : gmap string nat) (op : Op) :
  drawNamed (ds, m) op =
    (drawIndexed ds ((resolveIdx (op_name op) ds m).1, op),
     (resolveIdx (op_name op) ds m).2).
Proof.
  unfold drawNamed, drawIndexed. simpl.
  by destruct (resolveIdx (op_name op) ds m).
Qed.

Lemma drawNamed_fold_mono (ops : list Op) (s : list obj * gmap string nat) n i :
  s.2 !! n = Some i → (fold_left drawNamed ops s).2 !! n = Some i.
Proof.
  revert s. induction ops as [|op ops IH]; intros [ds m] H; simpl in *; [done|].
  apply IH. rewrite drawNamed_eq. simpl. by apply resolveIdx_mono.
Qed.

(** The names loop is a run at the indices of the final registry. *)
Lemma drawNamed_fold_indexed (ops : list Op) (ds : list obj) (m : gmap string nat) :
  let m1 := (fold_left drawNamed ops (ds, m)).2 in
  fold_left drawNamed ops (ds, m) =
    (fold_left drawIndexed (indexedBy m1 ops) ds, m1).
Proof.
  revert ds m. induction ops as [|op ops IH]; intros ds m; simpl; [done|].
  rewrite drawNamed_eq. rewrite IH at 1. f_equal.
  set (m1 := (fold_left drawNamed ops _).2).
  assert (m1 !! op_name op = Some (resolveIdx (op_name op) ds m).1) as ->; [|done].
  apply drawNamed_fold_mono. simpl. apply resolveIdx_lookup.
Qed.

Lemma drawNamed_fold_dom (ops : list Op) (ds : list obj) (m : gmap string nat) :
  dom (fold_left drawNamed ops (ds, m)).2 = dom m ∪ list_to_set (op_name <$> ops).
Proof.
  revert ds m. induction ops as [|op ops IH]; intros ds m.
  - simpl. by rewrite union_empty_r_L.
  - cbn [fold_left]. rewrite drawNamed_eq, IH, fmap_cons, list_to_set_cons.
    apply set_eq. intros x.
    destruct (resolveIdx_cases (op_name op) ds m) as [(i & Hi & ->)|[Hn ->]];
      cbn [snd].
    + apply (elem_of_dom_2 m) in Hi.
      rewrite !elem_of_union, elem_of_singleton.
      split; [tauto|]. intros [H|[->|H]]; tauto.
    + rewrite dom_insert_L, !elem_of_union, elem_of_singleton. tauto.
Qed.

(** A frame whose names are all registered leaves the registry alone. *)
Lemma drawNamed_fold_registered (ops : list Op) (ds : list obj) (m : gmap string nat) :
  Forall (fun op => is_Some (m !! op_name op)) ops →
  (fold_left drawNamed ops (ds, m)).2 = m.
Proof.
  revert ds. induction ops as [|op ops IH]; intros ds H; simpl; [done|].
  apply Forall_cons in H as [[i Hi] H]. rewrite drawNamed_eq.
  destruct (resolveIdx_cases (op_name op) ds m) as [(j & Hj & ->)|[Hn ->]]; simpl.
  - by apply IH.
  - congruence.
Qed.

Lemma drawNamed_size (ds : list obj) (m : gmap string nat) (op : Op) :
  size m ≤ length ds →
  size (drawNamed (ds, m) op).2 ≤ length (drawNamed (ds, m) op).1.
Proof.
  intros H. rewrite drawNamed_eq. simpl. unfold drawIndexed. simpl.
  destruct (resolveIdx_cases (op_name op) ds m) as [(j & Hj & ->)|[Hn ->]]; simpl.
  - etrans; [done|]. apply length_updateData_ge.
  - rewrite map_size_insert_None by done. rewrite updateData_ge by done.
    rewrite length_app. simpl. lia.
Qed.

Lemma drawNamed_fold_size (ops : list Op) (s : list obj * gmap string nat) :
  size s.2 ≤ length s.1 →
  size (fold_left drawNamed ops s).2 ≤ length (fold_left drawNamed ops s).1.
Proof.
  revert s. induction ops as [|op ops IH]; intros [ds m] H; simpl in *; [done|].
  apply IH. by apply drawNamed_size.
Qed.

Lemma drawNamed_below (ds : list obj) (m : gmap string nat) (op : Op) :
  below (ds, m) →
  below (drawNamed (ds, m) op) ∧ (resolveIdx (op_name op) ds m).1 ≤ length ds.
Proof.
  intros Hb. rewrite drawNamed_eq. unfold below, drawIndexed. simpl.
  destruct (resolveIdx_cases (op_name op) ds m) as [(j & Hj & ->)|[Hn ->]]; simpl.
  - pose proof (Hb _ _ Hj) as Hlt. simpl in Hlt. split; [|lia].
    intros n i Hi. eapply Nat.lt_le_trans; [by apply (Hb n i)|].
    apply length_updateData_ge.
  - split; [|done]. intros n i. rewrite updateData_ge by done.
    rewrite length_app. simpl. rewrite lookup_insert. case_decide.
    + intros [= <-]. lia.
    + intros Hi. apply (Hb n i) in Hi. simpl in Hi. lia.
Qed.

Lemma drawNamed_fold_below (ops : list Op) (ds : list obj) (m : gmap string nat) :
  below (ds, m) →
  below (fold_left drawNamed ops (ds, m)) ∧
  inRange (indexedBy (fold_left drawNamed ops (ds, m)).2 ops) ds.
Proof.
  revert ds m. induction ops as [|op ops IH]; intros ds m Hb; simpl; [done|].
  destruct (drawNamed_below ds m op Hb) as [Hb' Hle].
  rewrite drawNamed_eq in Hb' |- *.
  destruct (IH _ _ Hb') as [Hb'' Hr]. split; [done|].
  set (m1 := (fold_left drawNamed ops _).2) in *.
  assert (m1 !! op_name op = Some (resolveIdx (op_name op) ds m).1) as ->.
  { apply drawNamed_fold_mono. simpl. apply resolveIdx_lookup. }
  simpl. split; [done|]. exact Hr.
Qed.

(** ** The polygon loop *)

Lemma drawAt_fold_indexed (ops : list Op) (k : nat) (ds : list obj) :
  fold_left drawAt ops (k, ds) =
    (k + length ops, fold_left drawIndexed (indexedFrom k ops) ds).
Proof.
  revert k ds. induction ops as [|op ops IH]; intros k ds; simpl.
  - by rewrite Nat.add_0_r.
  - unfold drawAt at 2. simpl. rewrite IH. f_equal; [lia|].
    unfold indexedFrom. simpl. rewrite Nat.add_0_r. f_equal.
    apply imap_ext. intros i x _. simpl. f_equal. lia.
Qed.

Lemma indexedFrom_inRange (ops : list Op) (k : nat) (ds : list obj) :
  k ≤ length ds → inRange (indexedFrom k ops) ds.
Proof.
  revert k ds. induction ops as [|op ops IH]; intros k ds H; simpl; [done|].
  rewrite Nat.add_0_r. split; [done|].
  replace (imap ((λ i op0, (k + i, op0)) ∘ S) ops) with (indexedFrom (S k) ops).
  - apply IH. unfold drawIndexed. simpl. rewrite length_updateData.
    case_decide; lia.
  - unfold indexedFrom. apply imap_ext. intros i x _. simpl. f_equal. lia.
Qed.

(** After the polygon loop the array reaches at least the final index. *)
Lemma indexedFrom_length (ops : list Op) (k : nat) (ds : list obj) :
  k ≤ length ds →
  k + length ops ≤ length (fold_left drawIndexed (indexedFrom k ops) ds).
Proof.
  revert k ds. induction ops as [|op ops IH]; intros k ds H; simpl.
  - lia.
  - rewrite Nat.add_0_r.
    replace (imap ((λ i op0, (k + i, op0)) ∘ S) ops) with (indexedFrom (S k) ops).
    + etrans; [|apply IH]; [lia|]. unfold drawIndexed. simpl.
      rewrite length_updateData. case_decide; lia.
    + unfold indexedFrom. apply imap_ext. intros i x _. simpl. f_equal. lia.
Qed.

(** ** The style store *)

Lemma markCar_markCar (o : obj) : markCar (markCar o) = markCar o.
Proof.
  unfold markCar. apply map_eq. intros k.
  rewrite !lookup_insert. repeat case_decide; congruence.
Qed.

Lemma markCar_default_fmap (x : option obj) :
  markCar (default ∅ (markCar <$> x)) = markCar (default ∅ x).
Proof. destruct x; simpl; [apply markCar_markCar|done]. Qed.

Lemma sameMarked_step (ol : option loc) (h h0 : gmap loc obj) :
  sameMarked h h0 →
  sameMarked (match ol with Some l => alter markCar l h | None => h end) h0.
Proof.
  intros H l. destruct ol as [l0|]; [|apply H].
  rewrite lookup_alter. case_decide as E.
  - subst l0. rewrite markCar_default_fmap. apply H.
  - apply H.
Qed.

Lemma sameMarked_markAll (ls : list (option loc)) (h h0 : gmap loc obj) :
  sameMarked h h0 → sameMarked (markAll ls h) h0.
Proof.
  revert h. induction ls as [|ol ls IH]; intros h H; simpl; [done|].
  apply IH. by apply sameMarked_step.
Qed.

Lemma markAll_lookup (ls : list (option loc)) (h : gmap loc obj) l :
  markAll ls h !! l =
    if bool_decide (Some l ∈ ls) then markCar <$> h !! l else h !! l.
Proof.
  revert h. induction ls as [|ol ls IH]; intros h; simpl; [done|].
  rewrite IH. destruct ol as [l0|].
  - rewrite lookup_alter. destruct (decide (l0 = l)) as [->|Hne].
    + rewrite (bool_decide_eq_true_2 (Some l ∈ Some l :: ls)) by left.
      case_bool_decide; [|done].
      destruct (h !! l); simpl; [|done]. by rewrite markCar_markCar.
    + case_bool_decide as H1; case_bool_decide as H2; try done.
      * exfalso. apply H2. by right.
      * exfalso. apply elem_of_cons in H2 as [?|?]; [congruence|done].
  - case_bool_decide as H1; case_bool_decide as H2; try done.
    + exfalso. apply H2. by right.
    + exfalso. apply elem_of_cons in H2 as [?|?]; [congruence|done].
Qed.

(** A second pass over the same cars writes what is already there. *)
Lemma markAll_markAll (ls : list (option loc)) (h : gmap loc obj) :
  markAll ls (markAll ls h) = markAll ls h.
Proof.
  apply map_eq. intros l. rewrite !markAll_lookup.
  case_bool_decide; [|done].
  destruct (h !! l); simpl; [|done]. by rewrite markCar_markCar.
Qed.

(** ** The pipeline as drawing operations *)

Section Unfold.
Variable calc : coord → coord → coord → list Point.

Lemma updateCar_ops (d : DataBundle) (p : PropBundle) (name : string)
    (w : World) (h0 : gmap loc obj) :
  sameMarked (heap w) h0 →
  updateCar calc name (default emptyPoint (prop (data_cars d) name))
            (prop (prop_cars p) name) w =
  let s := fold_left drawNamed (carOpsOf calc h0 d p name) (datasets w, name2idx w) in
  mkWorld s.1 s.2
    (match prop (prop_cars p) name with
     | Some l => alter markCar l (heap w)
     | None => heap w
     end).
Proof.
  intros Hs. unfold updateCar, carOpsOf. simpl.
  assert (E : markCar (default ∅ (prop (prop_cars p) name ≫= (heap w !!.))) =
              markCar (default ∅ (prop (prop_cars p) name ≫= (h0 !!.)))).
  { destruct (prop (prop_cars p) name) as [l|]; simpl; [apply Hs|done]. }
  rewrite E. rewrite !drawNamed_eq. simpl.
  destruct (resolveIdx (arrowNameOf name) (datasets w) (name2idx w)) as [idx m1].
  simpl. unfold drawIndexed at 2 3. simpl.
  destruct (resolveIdx (polygonNameOf name) _ m1) as [idx2 m2]. reflexivity.
Qed.

Lemma cars_loop_ops (d : DataBundle) (p : PropBundle) (names : list string)
    (w : World) (h0 : gmap loc obj) :
  sameMarked (heap w) h0 →
  fold_left
    (fun w name =>
       updateCar calc name (default emptyPoint (prop (data_cars d) name))
                 (prop (prop_cars p) name) w) names w =
  let s := fold_left drawNamed (flat_map (carOpsOf calc h0 d p) names)
             (datasets w, name2idx w) in
  mkWorld s.1 s.2 (markAll (prop (prop_cars p) <$> names) (heap w)).
Proof.
  revert w. induction names as [|name names IH]; intros w Hs.
  - by destruct w.
  - cbn [fold_left flat_map fmap list_fmap]. rewrite fold_left_app.
    rewrite (updateCar_ops d p name w h0 Hs).
    rewrite IH by (by apply sameMarked_step). cbn [datasets name2idx heap markAll fold_left].
    by rewrite <- (surjective_pairing (fold_left drawNamed (carOpsOf calc h0 d p name) _)).
Qed.

Lemma lines_loop_ops (d : DataBundle) (p : PropBundle) (names : list string)
    (w : World) :
  fold_left (updateLine d p) names w =
  let s := fold_left drawNamed (lineOpOf d p <$> names) (datasets w, name2idx w) in
  mkWorld s.1 s.2 (heap w).
Proof.
  revert w. induction names as [|name names IH]; intros w.
  - by destruct w.
  - cbn [fold_left fmap list_fmap]. rewrite IH.
    unfold updateLine at 1 2 3. rewrite drawNamed_eq. unfold lineOpOf at 2 3 4.
    unfold drawIndexed. simpl.
    by destruct (resolveIdx name (datasets w) (name2idx w)).
Qed.

Lemma polygons_loop_ops (d : DataBundle) (p : PropBundle) (names : list string)
    (s : nat * list obj) :
  fold_left (updatePolygon d p) names s =
  fold_left drawAt (omap (polygonOpOf d p) names) s.
Proof.
  revert s. induction names as [|name names IH]; intros s; [done|].
  cbn [fold_left]. rewrite IH.
  change (omap (polygonOpOf d p) (name :: names))
    with (match polygonOpOf d p name with
          | Some op => op :: omap (polygonOpOf d p) names
          | None => omap (polygonOpOf d p) names
          end).
  unfold updatePolygon, polygonOpOf.
  destruct (prop (data_polygons d) name) as [[points|]|]; reflexivity.
Qed.

(** One accepted frame: the names loop over the car and line operations,
    the polygon loop from the registry size, the truncation, and one pass of
    writes to the style store. *)
Lemma updateChart_ops (props : Props) (d : DataBundle) (p : PropBundle) (w : World) :
  data props = Some d → properties props = Some p →
  updateChart calc props w =
  let s := fold_left drawNamed (carOps calc (heap w) d p ++ lineOps d p)
             (datasets w, name2idx w) in
  let iops := indexedFrom (size s.2) (polygonOps d p) in
  mkWorld (take (size s.2 + length (polygonOps d p)) (fold_left drawIndexed iops s.1))
          s.2 (markAll (carLocs p) (heap w)).
Proof.
  intros Hd Hp. unfold updateChart. rewrite Hd, Hp.
  rewrite (cars_loop_ops d p _ w (heap w)) by done.
  rewrite lines_loop_ops. rewrite polygons_loop_ops. cbn [datasets name2idx heap].
  rewrite fold_left_app. fold (carOps calc (heap w) d p). fold (lineOps d p).
  fold (polygonOps d p). fold (carLocs p).
  set (s1 := fold_left drawNamed (carOps calc (heap w) d p) _).
  destruct s1 as [ds1 m1]. cbn [fst snd].
  set (s2 := fold_left drawNamed (lineOps d p) (ds1, m1)).
  rewrite drawAt_fold_indexed. reflexivity.
Qed.

End Unfold.

(** ** Styles that leave [text] and [data] alone *)

Lemma plain_empty : plain ∅.
Proof. split; apply lookup_empty. Qed.

Lemma plain_markCar (o : obj) : plain o → plain (markCar o).
Proof.
  intros [Ht Hd]. unfold markCar.
  split; by repeat (rewrite lookup_insert_ne by done).
Qed.

Lemma plain_boxProperties (color : value) : plain (boxProperties color).
Proof.
  unfold boxProperties.
  split; repeat (rewrite lookup_insert_ne by done); apply lookup_empty.
Qed.

Lemma plain_defaultPolygonProperties : plain defaultPolygonProperties.
Proof. split; reflexivity. Qed.

Section Idempotence.
Variable calc : coord → coord → coord → list Point.

Lemma carOps_sameMarked (h h0 : gmap loc obj) (d : DataBundle) (p : PropBundle) :
  sameMarked h h0 → carOps calc h d p = carOps calc h0 d p.
Proof.
  intros Hs. unfold carOps. induction (keys (prop_cars p)) as [|name names IH];
    [done|].
  simpl. rewrite IH. unfold carOpsOf.
  assert (E : markCar (default ∅ (prop (prop_cars p) name ≫= (h !!.))) =
              markCar (default ∅ (prop (prop_cars p) name ≫= (h0 !!.)))).
  { destruct (prop (prop_cars p) name) as [l|]; simpl; [apply Hs|done]. }
  by rewrite E.
Qed.

Lemma carOps_plain (h : gmap loc obj) (d : DataBundle) (p : PropBundle) :
  plainStyles h p → Forall (fun op => plain (op_style op)) (carOps calc h d p).
Proof.
  intros (Hc & _ & _). unfold carOps.
  induction (keys (prop_cars p)) as [|name names IH]; simpl; [constructor|].
  constructor; [|constructor; [apply plain_boxProperties|exact IH]]. simpl.
  apply plain_markCar. destruct (prop (prop_cars p) name) as [l|] eqn:El; simpl.
  - destruct (h !! l) as [o|] eqn:Eo; simpl; [by eapply Hc|apply plain_empty].
  - apply plain_empty.
Qed.

Lemma lineOps_plain (h : gmap loc obj) (d : DataBundle) (p : PropBundle) :
  plainStyles h p → Forall (fun op => plain (op_style op)) (lineOps d p).
Proof.
  intros (_ & Hl & _). unfold lineOps. apply Forall_fmap, Forall_forall.
  intros name _. simpl.
  destruct (prop (prop_lines p) name) as [o|] eqn:E; simpl;
    [by eapply Hl|apply plain_empty].
Qed.

Lemma polygonOps_plain (h : gmap loc obj) (d : DataBundle) (p : PropBundle) :
  plainStyles h p → Forall (fun op => plain (op_style op)) (polygonOps d p).
Proof.
  intros (_ & _ & Hp). unfold polygonOps. apply Forall_forall. intros op Hop.
  apply list_elem_of_omap in Hop as (name & _ & Hop). unfold polygonOpOf in Hop.
  destruct (prop (data_polygons d) name) as [[points|]|]; try done.
  injection Hop as <-. simpl.
  destruct (prop (prop_polygons p) name) as [o|] eqn:E; simpl;
    [by eapply Hp|apply plain_defaultPolygonProperties].
Qed.

Lemma indexedBy_plain (m : gmap string nat) (ops : list Op) :
  Forall (fun op => plain (op_style op)) ops → Forall plainOp (indexedBy m ops).
Proof. intros H. unfold indexedBy. by apply Forall_fmap. Qed.

Lemma indexedFrom_plain (k : nat) (ops : list Op) :
  Forall (fun op => plain (op_style op)) ops → Forall plainOp (indexedFrom k ops).
Proof.
  intros H. unfold indexedFrom. apply Forall_forall. intros [i op] Hin.
  apply elem_of_lookup_imap in Hin as (j & op' & [= -> ->] & Hl).
  rewrite Forall_forall in H. apply H. by eapply list_elem_of_lookup_2.
Qed.

(** The registry part of one accepted frame, on a state without dangling
    names: a second application rewrites every slot with what it holds. *)
Lemma frame_twice (ops pops : list Op) (ds : list obj) (m : gmap string nat) :
  below (ds, m) → size m ≤ length ds →
  Forall (fun op => plain (op_style op)) ops →
  Forall (fun op => plain (op_style op)) pops →
  let s := fold_left drawNamed ops (ds, m) in
  let n := size s.2 + length pops in
  let ds1 := take n (fold_left drawIndexed (indexedFrom (size s.2) pops) s.1) in
  let s' := fold_left drawNamed ops (ds1, s.2) in
  s'.2 = s.2 ∧
  take n (fold_left drawIndexed (indexedFrom (size s.2) pops) s'.1) = ds1.
Proof.
  intros Hb Hsz Hops Hpops s n ds1 s'.
  assert (Hreg : s'.2 = s.2).
  { apply drawNamed_fold_registered. apply Forall_forall. intros op Hop.
    apply elem_of_dom. unfold s. rewrite drawNamed_fold_dom.
    apply elem_of_union_r, elem_of_list_to_set, list_elem_of_fmap. eauto. }
  split; [done|].
  pose proof (drawNamed_fold_indexed ops ds m) as E1. fold s in E1. simpl in E1.
  pose proof (drawNamed_fold_indexed ops ds1 s.2) as E2. fold s' in E2.
  simpl in E2. rewrite Hreg in E2.
  set (iops := indexedBy s.2 ops ++ indexedFrom (size s.2) pops).
  assert (HZ : fold_left drawIndexed (indexedFrom (size s.2) pops) s.1 =
               fold_left drawIndexed iops ds).
  { unfold iops. rewrite fold_left_app. by rewrite E1 at 2. }
  assert (HZ' : fold_left drawIndexed (indexedFrom (size s.2) pops) s'.1 =
                fold_left drawIndexed iops ds1).
  { unfold iops. rewrite fold_left_app. by rewrite E2 at 1. }
  assert (Hk : size s.2 ≤ length s.1) by (by apply drawNamed_fold_size).
  assert (Hn : n ≤ length (fold_left drawIndexed iops ds)).
  { rewrite <- HZ. by apply indexedFrom_length. }
  assert (Hr : inRange iops ds).
  { unfold iops. apply inRange_app. split.
    - by apply drawNamed_fold_below.
    - rewrite E1 in Hk. simpl in Hk. by apply indexedFrom_inRange. }
  assert (Hpl : Forall plainOp iops).
  { unfold iops. apply Forall_app. split;
      [by apply indexedBy_plain|by apply indexedFrom_plain]. }
  rewrite HZ'. unfold ds1. rewrite HZ.
  rewrite take_drawIndexed_fold by (rewrite length_take; lia).
  rewrite take_take, Nat.min_id.
  rewrite <- take_rewriteIndexed_fold. by rewrite rewrite_after_draw.
Qed.

End Idempotence.

Section Claims.
Variable calc : coord → coord → coord → list Point.

(** C7 (as amended): on a state in which every registered name points at an
    existing series, and for a frame whose style objects do not themselves
    carry a [text] or [data] key, applying the frame a second time changes
    nothing: the dataset array, the registry and the style store are the ones
    left by the first application, and so is what the auto-fit callback
    computes from them. *)
Theorem updateChart_twice (props : Props) (w : World) :
  noDangling w →
  (∀ p, properties props = Some p → plainStyles (heap w) p) →
  updateChart calc props (updateChart calc props w) = updateChart calc props w ∧
  ∀ metas scale,
    Axis.syncXYWindowSize
      (plotted metas (datasets (updateChart calc props (updateChart calc props w))))
      scale =
    Axis.syncXYWindowSize
      (plotted metas (datasets (updateChart calc props w))) scale.
Proof.
  intros [Hb Hsz] Hpl.
  assert (E : updateChart calc props (updateChart calc props w) =
              updateChart calc props w); [|split; [done|intros; by rewrite E]].
  destruct (data props) as [d|] eqn:Hd; [|by unfold updateChart; rewrite !Hd].
  destruct (properties props) as [p|] eqn:Hp;
    [|by unfold updateChart; rewrite !Hd, !Hp].
  specialize (Hpl p eq_refl).
  rewrite (updateChart_ops calc props d p (updateChart calc props w) Hd Hp).
  rewrite (updateChart_ops calc props d p w Hd Hp).
  cbn [datasets name2idx heap].
  rewrite (carOps_sameMarked calc (markAll (carLocs p) (heap w)) (heap w))
    by (by apply sameMarked_markAll).
  rewrite markAll_markAll.
  destruct (frame_twice (carOps calc (heap w) d p ++ lineOps d p)
              (polygonOps d p) (datasets w) (name2idx w)) as [E1 E2].
  - exact Hb.
  - exact Hsz.
  - apply Forall_app. split; [by apply carOps_plain|by eapply lineOps_plain].
  - by eapply polygonOps_plain.
  - cbv zeta in E1, E2. rewrite E1. by rewrite E2.
Qed.

End Claims.

Lemma updateChart_twice_witness :
  updateChart noBox egoFrame (updateChart noBox egoFrame (initial egoStore)) =
  updateChart noBox egoFrame (initial egoStore) ∧
  ∀ metas scale,
    Axis.syncXYWindowSize
      (plotted metas
         (datasets (updateChart noBox egoFrame
                      (updateChart noBox egoFrame (initial egoStore))))) scale =
    Axis.syncXYWindowSize
      (plotted metas (datasets (updateChart noBox egoFrame (initial egoStore))))
      scale.
Proof.
  apply (updateChart_twice noBox egoFrame (initial egoStore)).
  - split; [|vm_compute; lia]. intros name i H. simpl in H.
    rewrite lookup_empty in H. discriminate H.
  - intros p [= <-]. split; [|split]; simpl.
    + intros name l o Hl Ho. case_bool_decide; [|discriminate Hl].
      injection Hl as <-. unfold egoStore in Ho.
      rewrite lookup_singleton_eq in Ho. injection Ho as <-.
      split; reflexivity.
    + intros name o H. discriminate H.
    + intros name o H. discriminate H.
Defined.

(** C7 as stated fails in two ways.  (1) On the empty chart, a line whose
    style object has the key [text: 'hello'] is created with that text, and
    the second application of the same frame overwrites it with the name.
    (2) After the frames [polygons {p,q,r}] and [lines {x,n}] the names [x]
    and [n] are registered at 3 and 4 while only two series are left; the
    frame [lines {x,n,m1,m2}] then puts the series of [n] at index 3, and the
    second application of that frame writes the text of [x] into it. *)
Lemma updateChart_twice_differs :
  (captions (updateChart noBox captionFrame (initial ∅)) =
     [(VStr "l", VStr "hello")] ∧
   captions (updateChart noBox captionFrame
               (updateChart noBox captionFrame (initial ∅))) =
     [(VStr "l", VStr "l")]) ∧
  (let w := run noBox [polygonsFrame ["p"; "q"; "r"]; linesFrame ["x"; "n"]] ∅ in
   let frame := linesFrame ["x"; "n"; "m1"; "m2"] in
   captions (updateChart noBox frame w) =
     [(VStr "p", VStr "p"); (VStr "q", VStr "q");
      (VStr "x", VStr "x"); (VStr "n", VStr "n")] ∧
   captions (updateChart noBox frame (updateChart noBox frame w)) =
     [(VStr "p", VStr "p"); (VStr "q", VStr "q");
      (VStr "x", VStr "x"); (VStr "n", VStr "x")] ∧
   updateChart noBox frame (updateChart noBox frame w) ≠ updateChart noBox frame w).
Proof.
  split; [split; vm_compute; reflexivity|].
  split; [vm_compute; reflexivity|]. split; [vm_compute; reflexivity|].
  intros E. apply (f_equal captions) in E. vm_compute in E. discriminate E.
Qed.

(** ** Series names *)






(** ** The registry invariant *)






Section Invariant.
Variable calc : coord → coord → coord → list Point.


End Invariant.



(** ** Counting series *)




Section Counting.
Variable calc : coord → coord → coord → list Point.






End Counting.



Section SeriesCount.
Variable calc : coord → coord → coord → list Point.


End SeriesCount.



(** ** The caller's style objects *)


Section Styles.
Variable calc : coord → coord → coord → list Point.


(** C8: on the fresh chart the frame with the single car [ego] leaves
    exactly two series: [ego_arrow], tagged [specialMarker = 'car'] and shown
    in the legend, and the bounding box, whose label starts with [skip_] and
    which has no [specialMarker]. *)
Theorem ego_frame_series :
  let w := updateChart calc egoFrame (initial egoStore) in
  ∃ arrow box,
    datasets w = [arrow; box] ∧
    arrow !! "label" = Some (VStr "ego_arrow") ∧
    arrow !! "specialMarker" = Some (VStr "car") ∧
    arrow !! "data" = Some (VPoints [egoPoint]) ∧
    legendFilter "ego_arrow" = true ∧
    box !! "label" = Some (VStr "skip_legend_ego_car_bounding_box") ∧
    legendFilter "skip_legend_ego_car_bounding_box" = false ∧
    box !! "specialMarker" = None ∧
    box !! "data" =
      Some (VPoints (calc (pt_x egoPoint) (pt_y egoPoint) (pt_heading egoPoint))).
Proof.
  exists (newConfig "ego_arrow" (markCar {[ "color" := VStr "red" ]}) [egoPoint]),
    (newConfig "skip_legend_ego_car_bounding_box" (boxProperties (VStr "red"))
       (calc (pt_x egoPoint) (pt_y egoPoint) (pt_heading egoPoint))).
  repeat split; vm_compute; reflexivity.
Qed.

End Styles.


End RegistryProps.

(** * Properties of graph construction *)

Module ConstructProps.
Import Registry Construct.

(** C9 (as amended): when [setting] is present, [generateScatterGraph]
    never throws; it returns [null] exactly when the line data, the
    properties or the options are missing, and that is exactly when it writes
    its one diagnostic line. *)
Theorem generateScatterGraph_guard {Options : Type} (st : Setting Options)
    (lineDatasets : option (jsobject (list Point)))
    (carDatasets : option (jsobject Point))
    (polygonsDatasets : option (jsobject (option (list Point)))) :
  ∃ console result,
    generateScatterGraph (Some st) lineDatasets carDatasets polygonsDatasets =
      Returns console result ∧
    (result = None ↔ incomplete st lineDatasets) ∧
    (console = [("Graph setting or data not found:", title st)] ↔
       incomplete st lineDatasets) ∧
    (console = [] ↔ ¬ incomplete st lineDatasets).
Proof.
  unfold generateScatterGraph, incomplete. simpl.
  destruct lineDatasets as [lines|], (setting_properties st) as [p|],
    (setting_options st) as [o|];
    eexists _, _; (split; [reflexivity|]);
    (split; [|split]); split; intros H;
    try discriminate H; try reflexivity; try tauto;
    try (destruct H as [H|[H|H]]; discriminate H);
    try (exfalso; apply H; tauto);
    try (intros [H'|[H'|H']]; discriminate H').
Qed.

(** When [setting] itself is missing the guarded branch throws. *)
Lemma generateScatterGraph_no_setting {Options : Type}
    (lineDatasets : option (jsobject (list Point)))
    (carDatasets : option (jsobject Point))
    (polygonsDatasets : option (jsobject (option (list Point)))) :
  generateScatterGraph (Options := Options) None lineDatasets carDatasets
    polygonsDatasets = Throws.
Proof. unfold generateScatterGraph. by destruct lineDatasets. Qed.

(** C9 as stated fails: with [properties] and [options] both present but no
    line data, the diagnostic is written and [null] is returned. *)
Lemma generateScatterGraph_missing_lines :
  let st := mkSetting "speed" (Some (mkProperties [] [] [])) (Some tt) in
  setting_properties st ≠ None ∧ setting_options st ≠ None ∧
  generateScatterGraph (Some st) None None None =
    Returns [("Graph setting or data not found:", "speed")] None.
Proof. repeat split; discriminate. Qed.

End ConstructProps.

(** * Further properties of the Axis Window Controller *)

Module AxisFacts.
Import Axis AxisViews AxisProps.
Local Open Scope Qc_scope.










(** The result is a function of the scale's identity and of the multiset of
    finite points it sees. *)
Lemma syncXYWindowSize_same_points (ds ds' : list Plotted) (scale scale' : Scale) :
  scale_id scale = scale_id scale' → isHorizontal scale = isHorizontal scale' →
  finitePoints scale ds ≡ₚ finitePoints scale' ds' →
  finitePoints scale ds ≠ [] →
  syncXYWindowSize ds scale = syncXYWindowSize ds' scale'.
Proof.
  intros Hid Hh Hp Hne.
  destruct (syncXYWindowSize_cases ds scale)
    as [[E _]|(a & b & c & d & Ha & Hb & Hc & Hd & ->)]; [done|].
  destruct (syncXYWindowSize_cases ds' scale')
    as [[E _]|(a' & b' & c' & d' & Ha' & Hb' & Hc' & Hd' & ->)].
  { rewrite E in Hp. by apply Permutation_nil_r in Hp. }
  assert (H1 : (finitePoints scale ds).*1 ≡ₚ (finitePoints scale' ds').*1)
    by (by apply fmap_Permutation).
  assert (H2 : (finitePoints scale ds).*2 ≡ₚ (finitePoints scale' ds').*2)
    by (by apply fmap_Permutation).
  assert (a = a') as ->.
  { apply (least_unique _ _ _ Ha). destruct Ha' as [Hin Hle]. split.
    - by rewrite H1.
    - intros v Hv. apply Hle. by rewrite <- H1. }
  assert (b = b') as ->.
  { apply (greatest_unique _ _ _ Hb). destruct Hb' as [Hin Hle]. split.
    - by rewrite H1.
    - intros v Hv. apply Hle. by rewrite <- H1. }
  assert (c = c') as ->.
  { apply (least_unique _ _ _ Hc). destruct Hc' as [Hin Hle]. split.
    - by rewrite H2.
    - intros v Hv. apply Hle. by rewrite <- H2. }
  assert (d = d') as ->.
  { apply (greatest_unique _ _ _ Hd). destruct Hd' as [Hin Hle]. split.
    - by rewrite H2.
    - intros v Hv. apply Hle. by rewrite <- H2. }
  by rewrite Hid, Hh.
Qed.

Lemma finitePoints_Permutation (scale : Scale) (ds ds' : list Plotted) :
  ds ≡ₚ ds' → finitePoints scale ds ≡ₚ finitePoints scale ds'.
Proof.
  unfold finitePoints. induction 1 as [|d l l' _ IH|d d' l|l l' l'' _ IH1 _ IH2];
    simpl.
  - done.
  - by rewrite IH.
  - rewrite !app_assoc. f_equiv. apply Permutation_app_comm.
  - by etrans.
Qed.

(** X1: the order in which the datasets sit in the chart does not matter to
    the auto-fit. *)
Theorem syncXYWindowSize_dataset_order (ds ds' : list Plotted) (scale : Scale) :
  ds ≡ₚ ds' → syncXYWindowSize ds scale = syncXYWindowSize ds' scale.
Proof.
  intros Hp. pose proof (finitePoints_Permutation scale _ _ Hp) as Hf.
  destruct (finitePoints scale ds) as [|v vs] eqn:E.
  - apply Permutation_nil_l in Hf.
    destruct (syncXYWindowSize_cases ds scale) as [[_ ->]|(a & _ & _ & _ & Ha & _)];
      [|apply least_nonempty in Ha; by rewrite E in Ha].
    destruct (syncXYWindowSize_cases ds' scale) as [[_ ->]|(a & _ & _ & _ & Ha & _)];
      [done|apply least_nonempty in Ha; by rewrite <- Hf in Ha].
  - apply syncXYWindowSize_same_points; [done|done| |]; by rewrite E.
Qed.

Lemma syncXYWindowSize_dataset_order_witness :
  syncXYWindowSize [onBoth [xy 0 0]; onBoth [xy 10 4]] (yAxis 0 1) =
  syncXYWindowSize [onBoth [xy 10 4]; onBoth [xy 0 0]] (yAxis 0 1).
Proof.
  apply (syncXYWindowSize_dataset_order
           [onBoth [xy 0 0]; onBoth [xy 10 4]]
           [onBoth [xy 10 4]; onBoth [xy 0 0]] (yAxis 0 1)).
  apply perm_swap.
Defined.

Lemma finitePoints_pruned (scale : Scale) (ds : list Plotted) :
  finitePoints scale (pruned ds) = finitePoints scale ds.
Proof.
  unfold finitePoints, pruned. induction ds as [|d ds IH]; [done|].
  rewrite filter_cons. destruct (decide (visible d)) as [Hv|Hv].
  - rewrite fmap_cons. cbn [flat_map]. rewrite IH. f_equal.
    unfold keepFinite, IDMatches. cbn [visible xAxisID yAxisID points].
    destruct (visible d && _); [|done].
    clear. induction (points d) as [|p ps IHp]; [done|].
    change (omap finitePoint (p :: ps))
      with (match finitePoint p with
            | Some v => v :: omap finitePoint ps
            | None => omap finitePoint ps
            end).
    destruct (finitePoint p) as [v|] eqn:E.
    + rewrite filter_cons_True by (unfold isFinitePoint; by rewrite E).
      change (omap finitePoint (p :: filter (λ p0, isFinitePoint p0) ps))
        with (match finitePoint p with
              | Some v => v :: omap finitePoint (filter (λ p0, isFinitePoint p0) ps)
              | None => omap finitePoint (filter (λ p0, isFinitePoint p0) ps)
              end).
      by rewrite E, IHp.
    + rewrite filter_cons_False; [done|]. unfold isFinitePoint. rewrite E. simpl. tauto.
  - cbn [flat_map]. rewrite IH. destruct (visible d); [by destruct Hv|done].
Qed.

(** X2: invisible datasets, hidden points and points with a coordinate that
    is not a finite number have no influence on the auto-fit: removing them
    from the chart gives the same range. *)
Theorem syncXYWindowSize_pruned (ds : list Plotted) (scale : Scale) :
  syncXYWindowSize (pruned ds) scale = syncXYWindowSize ds scale.
Proof.
  pose proof (finitePoints_pruned scale ds) as E.
  destruct (syncXYWindowSize_cases ds scale)
    as [[E0 ->]|(a & _ & _ & _ & Ha & _)].
  - destruct (syncXYWindowSize_cases (pruned ds) scale)
      as [[_ ->]|(a & _ & _ & _ & Ha & _)]; [done|].
    apply least_nonempty in Ha. by rewrite E, E0 in Ha.
  - apply least_nonempty in Ha.
    apply syncXYWindowSize_same_points; [done|done|by rewrite E|].
    rewrite E. intros H. by rewrite H in Ha.
Qed.



Lemma finitePoints_scale (ds : list Plotted) (scale scale' : Scale) :
  scale_id scale = scale_id scale' → isHorizontal scale = isHorizontal scale' →
  finitePoints scale ds = finitePoints scale' ds.
Proof.
  intros Hid Hh. unfold finitePoints, IDMatches. by rewrite Hid, Hh.
Qed.

(** X4: the auto-fit is stable: running the callback again on the scale it
    has just set gives the same scale. *)
Theorem syncXYWindowSize_twice (ds : list Plotted) (scale : Scale) :
  syncXYWindowSize ds (syncXYWindowSize ds scale) = syncXYWindowSize ds scale.
Proof.
  destruct (syncXYWindowSize_cases ds scale)
    as [[E0 E]|(a & b & c & d & Ha & _ & _ & _ & E)].
  - by rewrite !E.
  - assert (Hid : scale_id (syncXYWindowSize ds scale) = scale_id scale)
      by (by rewrite E).
    assert (Hh : isHorizontal (syncXYWindowSize ds scale) = isHorizontal scale)
      by (by rewrite E).
    apply least_nonempty in Ha.
    apply syncXYWindowSize_same_points; [done|done| |].
    + by rewrite (finitePoints_scale ds _ scale Hid Hh).
    + rewrite (finitePoints_scale ds _ scale Hid Hh). intros H.
      by rewrite H in Ha.
Qed.

(** X5: once the scale sees a finite point, the range the auto-fit sets does
    not depend on the range the scale had before. *)
Theorem syncXYWindowSize_forgets_range (ds : list Plotted) (scale : Scale)
    (lo hi : Qc) :
  finitePoints scale ds ≠ [] →
  syncXYWindowSize ds (mkScale (scale_id scale) (isHorizontal scale) hi lo) =
  syncXYWindowSize ds scale.
Proof.
  intros Hne. apply syncXYWindowSize_same_points; [done|done| |].
  - by rewrite (finitePoints_scale ds _ scale).
  - by rewrite (finitePoints_scale ds _ scale).
Qed.

Lemma syncXYWindowSize_forgets_range_witness :
  syncXYWindowSize [onBoth [xy 0 0; xy 10 4]] (xAxis (num 100) (num 200)) =
  syncXYWindowSize [onBoth [xy 0 0; xy 10 4]] (xAxis 0 1).
Proof.
  apply (syncXYWindowSize_forgets_range [onBoth [xy 0 0; xy 10 4]] (xAxis 0 1)
           (num 100) (num 200)).
  discriminate.
Defined.

(** X6: when all finite points coincide the window collapses to the single
    value [Math.floor] of the coordinate: the viewport is empty. *)
Theorem syncXYWindowSize_single_point (ds : list Plotted) (scale : Scale) (v : Qc * Qc) :
  finitePoints scale ds ≠ [] →
  (∀ v', v' ∈ finitePoints scale ds → v' = v) →
  scale_min (syncXYWindowSize ds scale) = Math_floor (along scale v) ∧
  scale_max (syncXYWindowSize ds scale) = Math_floor (along scale v) ∧
  width (syncXYWindowSize ds scale) = 0.
Proof.
  intros Hne Hall.
  destruct (syncXYWindowSize_cases ds scale)
    as [[E _]|(a & b & c & d & Ha & Hb & Hc & Hd & ->)]; [done|].
  assert (Hfst : ∀ m, m ∈ (finitePoints scale ds).*1 → m = v.1).
  { intros m Hm. apply list_elem_of_fmap in Hm as (v' & -> & Hv').
    by rewrite (Hall v' Hv'). }
  assert (Hsnd : ∀ m, m ∈ (finitePoints scale ds).*2 → m = v.2).
  { intros m Hm. apply list_elem_of_fmap in Hm as (v' & -> & Hv').
    by rewrite (Hall v' Hv'). }
  rewrite (Hfst a), (Hfst b), (Hsnd c), (Hsnd d)
    by (by destruct Ha, Hb, Hc, Hd).
  assert (Hd0 : Math_max (v.1 - v.1) (v.2 - v.2) = 0).
  { replace (v.1 - v.1) with (0 : Qc) by ring.
    replace (v.2 - v.2) with (0 : Qc) by ring. reflexivity. }
  unfold width, along. cbn [scale_min scale_max isHorizontal]. rewrite Hd0.
  assert (Hmid : ∀ q : Qc, (q + q) / 2 = q) by (intros q; field; discriminate).
  rewrite !Hmid.
  destruct (isHorizontal scale); repeat split; try (field; discriminate).
Qed.

Lemma syncXYWindowSize_single_point_witness :
  scale_min (syncXYWindowSize [onBoth [xy 3 7]] (xAxis 0 1)) = Math_floor (num 3) ∧
  scale_max (syncXYWindowSize [onBoth [xy 3 7]] (xAxis 0 1)) = Math_floor (num 3) ∧
  width (syncXYWindowSize [onBoth [xy 3 7]] (xAxis 0 1)) = 0.
Proof.
  apply (syncXYWindowSize_single_point [onBoth [xy 3 7]] (xAxis 0 1) (num 3, num 7)).
  - discriminate.
  - intros v' Hv'. by apply list_elem_of_singleton in Hv'.
Defined.



(** X8: a configured midpoint of zero is falsy and therefore ignored: the
    window is centred as if no midpoint were configured, so unless the
    previous range happens to have its floored midpoint at zero the window is
    not the one centred on zero. *)
Theorem updateTickWindow_zero_midValue (scale : Scale) (w : Qc) :
  Math_floor ((scale_max scale + scale_min scale) / 2) ≠ 0 →
  updateTickWindow scale w (Some 0) = updateTickWindow scale w None ∧
  scale_max (updateTickWindow scale w (Some 0)) ≠ 0 + w / 2.
Proof.
  intros Hne. split; [reflexivity|]. unfold updateTickWindow. simpl.
  intros E. apply Hne.
  set (m := Math_floor _) in *.
  replace m with (m + w / 2 - w / 2) by (field; discriminate).
  rewrite E. field. discriminate.
Qed.

Lemma updateTickWindow_zero_midValue_witness :
  updateTickWindow (xAxis (num 3) (num 8)) (num 4) (Some 0) =
    updateTickWindow (xAxis (num 3) (num 8)) (num 4) None ∧
  scale_max (updateTickWindow (xAxis (num 3) (num 8)) (num 4) (Some 0)) ≠
    0 + num 4 / 2.
Proof.
  apply (updateTickWindow_zero_midValue (xAxis (num 3) (num 8)) (num 4)).
  discriminate.
Defined.

End AxisFacts.

(** * Further properties of the Frame Update Pipeline *)

Module PipelineFacts.
Import Registry RegistryViews RegistryProps.

(** ** In-place runs *)


Lemma setSeries_styleKey name d (o : obj) key :
  styleKey key → setSeries name d o !! key = o !! key.
Proof. intros [H1 H2]. unfold setSeries. by rewrite !lookup_insert_ne. Qed.

(** In-place writes keep every slot, and every key of it but the two. *)
Lemma rewriteIndexed_fold_keeps (iops : list (nat * Op)) (ds : list obj) j e :
  ds !! j = Some e →
  ∃ e', fold_left rewriteIndexed iops ds !! j = Some e' ∧
        ∀ key, styleKey key → e' !! key = e !! key.
Proof.
  revert ds e. induction iops as [|iop iops IH]; intros ds e He; simpl.
  - eauto.
  - destruct (decide (iop.1 = j)) as [<-|Hne].
    + destruct (IH (rewriteIndexed ds iop)
                   (setSeries (op_name iop.2) (op_points iop.2) e))
        as (e' & He' & Hk).
      { unfold rewriteIndexed. by rewrite list_lookup_alter_eq, He. }
      exists e'. split; [done|]. intros key Hkey.
      rewrite (Hk key Hkey). by apply setSeries_styleKey.
    + apply IH. unfold rewriteIndexed. by rewrite list_lookup_alter_ne.
Qed.


(** ** The polygon slots *)








Section Frames.
Variable calc : coord → coord → coord → list Point.

(** One accepted frame as a single run at indices. *)
Lemma updateChart_indexed (props : Props) (d : DataBundle) (p : PropBundle) (w : World) :
  data props = Some d → properties props = Some p →
  let ops := carOps calc (heap w) d p ++ lineOps d p in
  let m1 := (fold_left drawNamed ops (datasets w, name2idx w)).2 in
  name2idx (updateChart calc props w) = m1 ∧
  datasets (updateChart calc props w) =
    take (size m1 + length (polygonOps d p))
      (fold_left drawIndexed
         (indexedBy m1 ops ++ indexedFrom (size m1) (polygonOps d p))
         (datasets w)).
Proof.
  intros Hd Hp ops m1. rewrite (updateChart_ops calc props d p w Hd Hp).
  cbn [datasets name2idx]. fold ops. split; [done|].
  rewrite fold_left_app. fold m1.
  pose proof (drawNamed_fold_indexed ops (datasets w) (name2idx w)) as E.
  cbv zeta in E. fold m1 in E. by rewrite E.
Qed.

Lemma updateChart_skip (props : Props) (w : World) :
  ¬ accepted props → updateChart calc props w = w.
Proof.
  intros H. unfold updateChart, accepted in *.
  destruct (data props); [|done]. destruct (properties props); [|done].
  destruct H. split; eauto.
Qed.

(** X9: a frame never restyles a series that is already there: every
    series that survives the truncation keeps its label and all its other
    keys except [text] and [data], whatever the frame's style objects say. *)
Theorem updateChart_keeps_style (props : Props) (w : World) (j : nat) (e : obj) :
  datasets w !! j = Some e →
  j < length (datasets (updateChart calc props w)) →
  ∃ e', datasets (updateChart calc props w) !! j = Some e' ∧
        ∀ key, styleKey key → e' !! key = e !! key.
Proof.
  intros He Hj.
  destruct (data props) as [d|] eqn:Hd;
    [|rewrite updateChart_skip by (intros [[? ?] _]; congruence); eauto].
  destruct (properties props) as [p|] eqn:Hp;
    [|rewrite updateChart_skip by (intros [_ [? ?]]; congruence); eauto].
  destruct (updateChart_indexed props d p w Hd Hp) as [_ E]. cbv zeta in E.
  rewrite E in Hj |- *. clear E.
  set (iops := indexedBy _ _ ++ indexedFrom _ _) in *.
  set (n := size _ + length _) in *.
  rewrite length_take in Hj.
  pose proof (lookup_lt_Some _ _ _ He) as Hlt.
  rewrite lookup_take_lt by lia.
  rewrite <- (lookup_take_lt _ (length (datasets w))) by done.
  rewrite take_drawIndexed_fold by done. rewrite take_ge by done.
  by apply rewriteIndexed_fold_keeps.
Qed.




End Frames.

Lemma updateChart_keeps_style_witness :
  ∃ e', datasets (updateChart noBox (linesFrame ["ego_arrow"])
                    (updateChart noBox egoFrame (initial egoStore)))
          !! 0 = Some e' ∧
        ∀ key, styleKey key →
          e' !! key =
          newConfig "ego_arrow" (markCar {[ "color" := VStr "red" ]}) [egoPoint]
            !! key.
Proof.
  apply (updateChart_keeps_style noBox (linesFrame ["ego_arrow"])
           (updateChart noBox egoFrame (initial egoStore)) 0
           (newConfig "ego_arrow" (markCar {[ "color" := VStr "red" ]}) [egoPoint])).
  - vm_compute. reflexivity.
  - vm_compute. lia.
Defined.



Section Sessions.
Variable calc : coord → coord → coord → list Point.

Lemma accepted_dec (props : Props) :
  (∃ d p, data props = Some d ∧ properties props = Some p) ∨ ¬ accepted props.
Proof.
  unfold accepted. destruct (data props) as [d|]; [|right; by intros [[? ?] _]].
  destruct (properties props) as [p|]; [|right; by intros [_ [? ?]]].
  left. eauto.
Qed.



End Sessions.


(** ** The first frame on a fresh chart *)



Section Mount.
Variable calc : coord → coord → coord → list Point.

(** X13: a frame writes to no style object other than those that its
    [properties.cars] lists, and a frame that is not accepted writes to
    none. *)
Theorem updateChart_store_frame (props : Props) (w : World) (l : loc) :
  (∀ d p name, data props = Some d → properties props = Some p →
     prop (prop_cars p) name ≠ Some l) →
  heap (updateChart calc props w) !! l = heap w !! l.
Proof.
  intros Hl.
  destruct (accepted_dec props) as [(d & p & Hd & Hp)|Hno];
    [|by rewrite updateChart_skip].
  rewrite (updateChart_ops calc props d p w Hd Hp). cbn [heap].
  rewrite markAll_lookup. rewrite bool_decide_eq_false_2; [done|].
  unfold carLocs. intros Hin. apply list_elem_of_fmap in Hin as (name & E & _).
  by apply (Hl d p name Hd Hp).
Qed.



End Mount.

Lemma updateChart_store_frame_witness :
  heap (updateChart noBox egoFrame
          (initial (<[2%positive := {[ "color" := VStr "blue" ]}]> egoStore)))
    !! 2%positive =
  heap (initial (<[2%positive := {[ "color" := VStr "blue" ]}]> egoStore))
    !! 2%positive.
Proof.
  apply (updateChart_store_frame noBox egoFrame
           (initial (<[2%positive := {[ "color" := VStr "blue" ]}]> egoStore))
           2%positive).
  intros d p name _ [= <-]. simpl. case_bool_decide; discriminate.
Defined.


End PipelineFacts.

(** * Properties of chart construction *)

Module CanvasFacts.
Import Registry Canvas RegistryProps.
Local Open Scope Qc_scope.






(** X17: the legend of a chart built by [initializeCanvas] never lists the
    bounding box of a car, whatever the car is called: its series name
    starts with [skip_]. *)
Theorem legend_hides_bounding_boxes (title : option string) (options : Options)
    (chartOptions : ChartOptions) (name : string) :
  initializeCanvas title options = Some chartOptions →
  legend_labels_filter chartOptions (polygonNameOf name) = false.
Proof.
  unfold initializeCanvas. destruct (legend options); [|discriminate].
  intros [= <-]. reflexivity.
Qed.

Lemma legend_hides_bounding_boxes_witness :
  legend_labels_filter
    (default (mkChartOptions false None None legendFilter true "" false None None)
       (initializeCanvas (Some "speed") squareOptions))
    (polygonNameOf "ego") = false.
Proof.
  apply (legend_hides_bounding_boxes (Some "speed") squareOptions _ "ego").
  reflexivity.
Defined.

End CanvasFacts.

(** * Properties of the draw pass *)

Module OverlayFacts.
Import Registry RegistryViews Overlay.
Local Open Scope Qc_scope.

Lemma newConfig_lookup name (p : obj) d key :
  key ≠ "label" → key ≠ "showText" → key ≠ "text" → key ≠ "backgroundColor" →
  key ≠ "borderColor" → key ≠ "data" →
  newConfig name p d !! key = p !! key.
Proof.
  intros. unfold newConfig. rewrite lookup_union.
  repeat (rewrite lookup_insert_ne by done). rewrite lookup_empty.
  by destruct (p !! key).
Qed.

Lemma newConfig_showText name (p : obj) d :
  p !! "showText" = None →
  get (newConfig name p d) "showText" = get p "showLabel".
Proof.
  intros H. unfold get, newConfig. rewrite lookup_union_r by done.
  repeat (rewrite lookup_insert_ne by done). by rewrite lookup_insert_eq.
Qed.

Lemma newConfig_borderColor name (p : obj) d :
  p !! "borderColor" = None →
  get (newConfig name p d) "borderColor" = get p "color".
Proof.
  intros H. unfold get at 1, newConfig. rewrite lookup_union_r by done.
  repeat (rewrite lookup_insert_ne by done). by rewrite lookup_insert_eq.
Qed.

Lemma newConfig_data name (p : obj) d :
  p !! "data" = None → get (newConfig name p d) "data" = VPoints d.
Proof.
  intros H. unfold get, newConfig. rewrite lookup_union_r by done.
  by rewrite lookup_insert_eq.
Qed.

Section Pass.
Variable rotationInPixels : coord → ScaleBox → ScaleBox → coord.

(** X18: a series whose [showText] is truthy gets its label at its middle
    element, which exists whenever the series has an element: the pass goes
    on, and the only text drawn is the series' [text] above the position of
    element [floor(n / 2)]. *)
Theorem label_at_middle (chartScales : gmap string ScaleBox) (dataset : obj)
    (meta : list (Qc * Qc)) :
  truthyValue (get dataset "showText") = true → meta ≠ [] →
  ∃ position,
    meta !! (length meta / 2)%nat = Some position ∧
    drawDataset rotationInPixels chartScales dataset meta =
      (labelStyle dataset ++
       [FillText (get dataset "text") position.1
                 (position.2 - Axis.num 15 / 2 - 1)], true).
Proof.
  intros Ht Hne. unfold drawDataset. rewrite Ht.
  destruct (lookup_lt_is_Some_2 meta (length meta / 2)%nat) as [position Hp].
  - destruct meta; [done|]. simpl length. apply Nat.div_lt; lia.
  - exists position. by rewrite Hp.
Qed.

End Pass.

Lemma label_at_middle_witness :
  ∃ position,
    [(Axis.num 1, Axis.num 2); (Axis.num 3, Axis.num 4); (Axis.num 5, Axis.num 6)]
      !! (3 / 2)%nat = Some position ∧
    drawDataset (fun _ _ _ => CNaN) ∅ (newConfig "a" defaultPolygonProperties [])
      [(Axis.num 1, Axis.num 2); (Axis.num 3, Axis.num 4); (Axis.num 5, Axis.num 6)] =
      (labelStyle (newConfig "a" defaultPolygonProperties []) ++
       [FillText (get (newConfig "a" defaultPolygonProperties []) "text") position.1
                 (position.2 - Axis.num 15 / 2 - 1)], true).
Proof.
  apply (label_at_middle (fun _ _ _ => CNaN) ∅
           (newConfig "a" defaultPolygonProperties [])
           [(Axis.num 1, Axis.num 2); (Axis.num 3, Axis.num 4);
            (Axis.num 5, Axis.num 6)]).
  - reflexivity.
  - discriminate.
Defined.

Section Pass2.
Variable rotationInPixels : coord → ScaleBox → ScaleBox → coord.


(** X20: the bounding box of a car never gets an overlay, neither as the
    series [updateCar] creates nor after later frames have rewritten its
    text and data. *)
Theorem bounding_box_no_overlay (chartScales : gmap string ScaleBox)
    (name : string) (color : value) (polygon : list Point)
    (name' : string) (polygon' : list Point) (meta : list (Qc * Qc)) :
  drawDataset rotationInPixels chartScales
    (newConfig (polygonNameOf name) (boxProperties color) polygon) meta = ([], true) ∧
  drawDataset rotationInPixels chartScales
    (setSeries name' polygon'
       (newConfig (polygonNameOf name) (boxProperties color) polygon)) meta =
    ([], true).
Proof.
  assert (H1 : get (newConfig (polygonNameOf name) (boxProperties color) polygon)
                 "showText" = VUndefined).
  { rewrite newConfig_showText by (unfold boxProperties;
      by repeat (rewrite lookup_insert_ne by done)).
    unfold get, boxProperties. by repeat (rewrite lookup_insert_ne by done). }
  assert (H2 : get (newConfig (polygonNameOf name) (boxProperties color) polygon)
                 "specialMarker" = VUndefined).
  { unfold get. rewrite newConfig_lookup by done.
    unfold boxProperties. by repeat (rewrite lookup_insert_ne by done). }
  split; unfold drawDataset.
  - by rewrite H1, H2.
  - unfold get in *.
    rewrite (PipelineFacts.setSeries_styleKey _ _ _ "showText") by (by split).
    rewrite (PipelineFacts.setSeries_styleKey _ _ _ "specialMarker") by (by split).
    by rewrite H1, H2.
Qed.

(** X21: for a car whose style object sets none of [showLabel], [showText],
    [borderColor] and [data], the series [updateCar] creates for the arrow
    is drawn as the glyph: at the position of its first element, rotated by
    minus the angle derived from the car's heading (zero when the heading is
    missing), in the car's colour, between a save and a restore. *)
Theorem car_arrow_glyph (chartScales : gmap string ScaleBox) (name : string)
    (o : obj) (point : Point) (xAxis yAxis : ScaleBox)
    (position : Qc * Qc) (meta : list (Qc * Qc)) :
  o !! "showLabel" = None → o !! "showText" = None →
  o !! "borderColor" = None → o !! "data" = None →
  chartScales !! "x-axis-0" = Some xAxis →
  chartScales !! "y-axis-0" = Some yAxis →
  meta !! 0%nat = Some position →
  drawDataset rotationInPixels chartScales
    (newConfig (arrowNameOf name) (markCar o) [point]) meta =
    ([Save;
      SetFont 20 "normal" "Helvetica Neue";
      Translate position.1 position.2;
      Rotate (negate (rotationInPixels (orZero (pt_heading point)) xAxis yAxis));
      SetFillStyle (get o "color");
      FillText (VStr arrowGlyph) 0 0;
      Restore], true).
Proof.
  intros Hl Ht Hb Hd Hx Hy Hm.
  assert (Hmark : ∀ key, key ≠ "specialMarker" → key ≠ "borderWidth" →
            key ≠ "pointRadius" → markCar o !! key = o !! key).
  { intros key ? ? ?. unfold markCar. by rewrite !lookup_insert_ne. }
  unfold drawDataset.
  rewrite newConfig_showText by (by rewrite Hmark).
  unfold get at 1. rewrite Hmark, Hl by done. simpl.
  assert (Hs : get (newConfig (arrowNameOf name) (markCar o) [point])
                 "specialMarker" = VStr "car").
  { unfold get. rewrite newConfig_lookup by done. unfold markCar.
    repeat (rewrite lookup_insert_ne by done). by rewrite lookup_insert_eq. }
  rewrite Hs. simpl.
  rewrite newConfig_data by (by rewrite Hmark).
  simpl. rewrite Hx, Hy, Hm.
  rewrite newConfig_borderColor by (by rewrite Hmark).
  unfold get at 1. by rewrite Hmark.
Qed.

(** X22: a truthy [showLabel] in a car's style object turns its arrow
    series into a labelled series: the draw pass writes the arrow's name as
    text and draws no glyph (no save, rotate or restore). *)
Theorem car_label_replaces_glyph (chartScales : gmap string ScaleBox)
    (name : string) (o : obj) (point : Point) (meta : list (Qc * Qc)) :
  truthyValue (get o "showLabel") = true → o !! "showText" = None →
  o !! "text" = None →
  (drawDataset rotationInPixels chartScales
     (newConfig (arrowNameOf name) (markCar o) [point]) meta).1 =
    labelStyle (newConfig (arrowNameOf name) (markCar o) [point]) ++
    match meta !! (length meta / 2)%nat with
    | Some position =>
        [FillText (VStr (arrowNameOf name)) position.1
                  (position.2 - Axis.num 15 / 2 - 1)]
    | None => []
    end.
Proof.
  intros Hl Ht Htext.
  assert (Hmark : ∀ key, key ≠ "specialMarker" → key ≠ "borderWidth" →
            key ≠ "pointRadius" → markCar o !! key = o !! key).
  { intros key ? ? ?. unfold markCar. by rewrite !lookup_insert_ne. }
  unfold drawDataset.
  rewrite newConfig_showText by (by rewrite Hmark).
  unfold get at 1. rewrite Hmark by done. fold (get o "showLabel"). rewrite Hl.
  assert (Hx : get (newConfig (arrowNameOf name) (markCar o) [point]) "text" =
               VStr (arrowNameOf name)).
  { unfold get, newConfig. rewrite lookup_union_r by (by rewrite Hmark).
    repeat (rewrite lookup_insert_ne by done). by rewrite lookup_insert_eq. }
  destruct (meta !! (length meta / 2)%nat); simpl; [by rewrite Hx|done].
Qed.

Lemma drawFrom_app (chartScales : gmap string ScaleBox)
    (metas : nat → list (Qc * Qc)) (ds1 ds2 : list obj) (i : nat) :
  drawFrom rotationInPixels chartScales metas i (ds1 ++ ds2) =
    if (drawFrom rotationInPixels chartScales metas i ds1).2
    then ((drawFrom rotationInPixels chartScales metas i ds1).1 ++
          (drawFrom rotationInPixels chartScales metas (i + length ds1) ds2).1,
          (drawFrom rotationInPixels chartScales metas (i + length ds1) ds2).2)
    else drawFrom rotationInPixels chartScales metas i ds1.
Proof.
  revert i. induction ds1 as [|d ds1 IH]; intros i.
  - simpl. rewrite Nat.add_0_r. by destruct (drawFrom _ _ _ i ds2).
  - cbn [app drawFrom length].
    destruct (drawDataset rotationInPixels chartScales d (metas i)) as [ops ok].
    cbn [fst snd]. destruct ok; [|done].
    rewrite IH. replace (S i + length ds1)%nat with (i + S (length ds1))%nat by lia.
    destruct (drawFrom _ _ _ (S i) ds1) as [ops1 ok1]. cbn [fst snd].
    destruct ok1; [|done]. cbn [fst snd]. by rewrite (assoc_L (++)).
Qed.

(** X23: an exception ends the pass: when the pass throws within a prefix of
    the datasets, none of the datasets behind it is drawn. *)
Theorem drawPass_stops (chartScales : gmap string ScaleBox)
    (metas : nat → list (Qc * Qc)) (ds1 ds2 : list obj) :
  (afterDatasetsDraw rotationInPixels chartScales metas ds1).2 = false →
  afterDatasetsDraw rotationInPixels chartScales metas (ds1 ++ ds2) =
  afterDatasetsDraw rotationInPixels chartScales metas ds1.
Proof.
  unfold afterDatasetsDraw. intros H. by rewrite drawFrom_app, H.
Qed.

Lemma drawDataset_balanced (chartScales : gmap string ScaleBox) (dataset : obj)
    (meta : list (Qc * Qc)) :
  let r := drawDataset rotationInPixels chartScales dataset meta in
  length (filter (fun op => isSave op) r.1) =
    (length (filter (fun op => isRestore op) r.1) + if r.2 then 0 else
       if truthyValue (get dataset "showText") then 0 else 1)%nat.
Proof.
  unfold drawDataset.
  destruct (truthyValue (get dataset "showText")).
  - destruct (meta !! (length meta / 2)%nat); reflexivity.
  - destruct (isCar (get dataset "specialMarker")); [|reflexivity].
    destruct (firstHeading (get dataset "data")); [|reflexivity].
    destruct (chartScales !! "x-axis-0"); [|reflexivity].
    destruct (chartScales !! "y-axis-0"); [|reflexivity].
    destruct (meta !! 0%nat); reflexivity.
Qed.

(** X24: a pass that completes restores the canvas as often as it saves
    it. *)
Theorem drawPass_balanced (chartScales : gmap string ScaleBox)
    (metas : nat → list (Qc * Qc)) (datasets : list obj) :
  (afterDatasetsDraw rotationInPixels chartScales metas datasets).2 = true →
  length (filter (fun op => isSave op)
            (afterDatasetsDraw rotationInPixels chartScales metas datasets).1) =
  length (filter (fun op => isRestore op)
            (afterDatasetsDraw rotationInPixels chartScales metas datasets).1).
Proof.
  unfold afterDatasetsDraw. generalize 0%nat.
  induction datasets as [|d ds IH]; intros i; [done|].
  cbn [drawFrom].
  pose proof (drawDataset_balanced chartScales d (metas i)) as Hb. cbv zeta in Hb.
  destruct (drawDataset rotationInPixels chartScales d (metas i)) as [ops ok].
  cbn [fst snd] in *. destruct ok; [|discriminate].
  cbn [fst snd]. intros Hok. rewrite !filter_app, !length_app.
  rewrite (IH (S i) Hok). lia.
Qed.

End Pass2.


Lemma car_arrow_glyph_witness :
  drawDataset (fun _ _ _ => CNum 0)
    {[ "x-axis-0" := mkScaleBox 1 1 1 0; "y-axis-0" := mkScaleBox 1 1 1 0 ]}
    (newConfig (arrowNameOf "ego") (markCar {[ "color" := VStr "red" ]}) [egoPoint])
    [(Axis.num 4, Axis.num 5)] =
    ([Save;
      SetFont 20 "normal" "Helvetica Neue";
      Translate (Axis.num 4) (Axis.num 5);
      Rotate (negate (CNum 0));
      SetFillStyle (get ({[ "color" := VStr "red" ]} : obj) "color");
      FillText (VStr arrowGlyph) 0 0;
      Restore], true).
Proof.
  apply (car_arrow_glyph (fun _ _ _ => CNum 0)
           {[ "x-axis-0" := mkScaleBox 1 1 1 0; "y-axis-0" := mkScaleBox 1 1 1 0 ]}
           "ego" {[ "color" := VStr "red" ]} egoPoint
           (mkScaleBox 1 1 1 0) (mkScaleBox 1 1 1 0) (Axis.num 4, Axis.num 5)
           [(Axis.num 4, Axis.num 5)]); reflexivity.
Defined.

Lemma car_label_replaces_glyph_witness :
  (drawDataset (fun _ _ _ => CNum 0) ∅
     (newConfig (arrowNameOf "ego")
        (markCar {[ "showLabel" := VBool true ]}) [egoPoint])
     [(Axis.num 4, Axis.num 5)]).1 =
    labelStyle (newConfig (arrowNameOf "ego")
                  (markCar {[ "showLabel" := VBool true ]}) [egoPoint]) ++
    [FillText (VStr (arrowNameOf "ego")) (Axis.num 4)
       (Axis.num 5 - Axis.num 15 / 2 - 1)].
Proof.
  apply (car_label_replaces_glyph (fun _ _ _ => CNum 0) ∅ "ego"
           {[ "showLabel" := VBool true ]} egoPoint [(Axis.num 4, Axis.num 5)]);
    reflexivity.
Defined.

Lemma drawPass_stops_witness :
  afterDatasetsDraw (fun _ _ _ => CNaN) ∅ (fun _ => [])
    ([newConfig "a" defaultPolygonProperties []] ++
     [newConfig "b" defaultPolygonProperties []]) =
  afterDatasetsDraw (fun _ _ _ => CNaN) ∅ (fun _ => [])
    [newConfig "a" defaultPolygonProperties []].
Proof.
  apply (drawPass_stops (fun _ _ _ => CNaN) ∅ (fun _ => [])
           [newConfig "a" defaultPolygonProperties []]
           [newConfig "b" defaultPolygonProperties []]).
  reflexivity.
Defined.

Lemma drawPass_balanced_witness :
  length (filter (fun op => isSave op)
            (afterDatasetsDraw (fun _ _ _ => CNum 0)
               {[ "x-axis-0" := mkScaleBox 1 1 1 0; "y-axis-0" := mkScaleBox 1 1 1 0 ]}
               (fun _ => [(Axis.num 4, Axis.num 5)])
               (datasets (updateChart noBox egoFrame (initial egoStore)))).1) =
  length (filter (fun op => isRestore op)
            (afterDatasetsDraw (fun _ _ _ => CNum 0)
               {[ "x-axis-0" := mkScaleBox 1 1 1 0; "y-axis-0" := mkScaleBox 1 1 1 0 ]}
               (fun _ => [(Axis.num 4, Axis.num 5)])
               (datasets (updateChart noBox egoFrame (initial egoStore)))).1).
Proof.
  apply (drawPass_balanced (fun _ _ _ => CNum 0)
           {[ "x-axis-0" := mkScaleBox 1 1 1 0; "y-axis-0" := mkScaleBox 1 1 1 0 ]}
           (fun _ => [(Axis.num 4, Axis.num 5)])
           (datasets (updateChart noBox egoFrame (initial egoStore)))).
  vm_compute. reflexivity.
Defined.

End OverlayFacts.

(** * Further properties of graph construction *)

Module ConstructFacts.
Import Registry Construct.

(** X25: when [setting] itself is missing, [generateScatterGraph] does not
    reach its diagnostic: the guard that tests [!setting] reads
    [setting.title] for the message, so the call throws whatever the data
    arguments are, and nothing is written to the console. *)
Theorem generateScatterGraph_throws {Options : Type}
    (lineDatasets : option (jsobject (list Point)))
    (carDatasets : option (jsobject Point))
    (polygonsDatasets : option (jsobject (option (list Point)))) :
  generateScatterGraph (Options := Options) None lineDatasets carDatasets
    polygonsDatasets = Throws ∧
  ∀ console result,
    generateScatterGraph (Options := Options) None lineDatasets carDatasets
      polygonsDatasets ≠ Returns console result.
Proof.
  assert (E : generateScatterGraph (Options := Options) None lineDatasets
                carDatasets polygonsDatasets = Throws)
    by (unfold generateScatterGraph; by destruct lineDatasets).
  split; [exact E|]. intros console result. rewrite E. discriminate.
Qed.

End ConstructFacts.
